(** * Chat rooms: the storage access layer and its routes

    A shallow embedding of [server/storage.ts] (class [DatabaseStorage]),
    of the tables of [shared/schema.ts] and of the room and message
    handlers of [server/routes.ts], with the properties of the
    persistence and polling model stated over them. *)

From Stdlib Require Import ZArith String Ascii List Bool Lia.
From Stdlib Require Import DecimalString DecimalPos DecimalZ.
From stdpp Require Import base option list gmap strings sorting.
Import ListNotations.

Open Scope string_scope.
Open Scope list_scope.
Open Scope Z_scope.

(** ** Rows of [shared/schema.ts]

    Timestamps are instants on the database clock, as integers.  The
    columns [created_at] and [joined_at] of rooms, messages and
    room_members are never supplied by an insert of the storage layer
    (the insert schemas omit them), so they always hold the column
    default [now()], and the rows below carry them unwrapped.  A user
    row keeps its nullable columns as options: the placeholder creator
    of [getRooms] sets all of them to null. *)

Record User := mkUser {
  u_id : string;
  u_email : option string;
  u_firstName : option string;
  u_lastName : option string;
  u_profileImageUrl : option string;
  u_createdAt : option Z;
  u_updatedAt : option Z
}.

Record Room := mkRoom {
  r_id : Z;
  r_name : string;
  r_description : option string;
  r_createdBy : string;
  r_createdAt : Z;
  r_updatedAt : Z
}.

Record Message := mkMessage {
  m_id : Z;
  m_content : string;
  m_userId : string;
  m_roomId : Z;
  m_createdAt : Z
}.

Record RoomMember := mkRoomMember {
  rm_id : Z;
  rm_userId : string;
  rm_roomId : Z;
  rm_joinedAt : Z
}.

(** [insertRoomSchema] and [insertMessageSchema]: the row without its
    serial id and its defaulted timestamps. *)
Record InsertRoom := mkInsertRoom {
  ir_name : string;
  ir_description : option string;
  ir_createdBy : string
}.

Record InsertMessage := mkInsertMessage {
  im_content : string;
  im_userId : string;
  im_roomId : Z
}.

(** [MessageWithUser = Message & { user: User }]. *)
Record MessageWithUser := mkMessageWithUser {
  mw_message : Message;
  mw_user : User
}.

(** [RoomWithDetails]: the room columns, the creator and the count. *)
Record RoomWithDetails := mkRoomWithDetails {
  rd_room : Room;
  rd_creator : User;
  rd_memberCount : Z
}.

(** ** The database

    [users] is keyed by its primary key, the textual id.  The three
    tables with a [serial] primary key are kept as their rows in
    insertion order, each with the last value drawn from its sequence.
    The only unique constraints the schema declares on them are these
    primary keys. *)

Record DB := mkDB {
  users : gmap string User;
  rooms : list Room;
  rooms_seq : Z;
  messages : list Message;
  messages_seq : Z;
  roomMembers : list RoomMember;
  roomMembers_seq : Z
}.

Definition empty_db : DB :=
  {| users := ∅; rooms := []; rooms_seq := 0;
     messages := []; messages_seq := 0;
     roomMembers := []; roomMembers_seq := 0 |}.

(** A JavaScript [Date]: a valid instant or the invalid date. *)
Inductive JSDate := ValidDate (t : Z) | InvalidDate.

(** ** What the code leaves to its platform

    [ORDER BY created_at DESC] fixes the order of rows only up to rows
    with equal timestamps; the engine is free in how it arranges those.
    [orderByDesc] is the engine's sort, known by the two laws of the SQL
    clause.  [rejects n] tells whether the database turns down the
    [n]-th statement sent to it (lost connection, a constraint the
    model does not track), [now n] is the database clock when that
    statement runs, and [newDate] is the [Date] constructor on a
    string. *)

Definition newer_first (a b : Message * User) : Prop :=
  m_createdAt b.1 <= m_createdAt a.1.

Record Runtime := mkRuntime {
  orderByDesc : list (Message * User) -> list (Message * User);
  orderByDesc_perm : forall l, Permutation (orderByDesc l) l;
  orderByDesc_sorted : forall l, Sorted newer_first (orderByDesc l);
  rejects : nat -> bool;
  now : nat -> Z;
  newDate : string -> JSDate
}.

(** ** Awaited computations

    The state threaded through the code is the database together with
    the number of statements sent so far.  An [async] body either
    resolves with a value or rejects with an error; in both cases the
    state is the one left behind, since every statement commits on its
    own. *)

Record World := mkWorld {
  db : DB;
  issued : nat
}.

Inductive Error := DatabaseError | ZodError.

Inductive Outcome (A : Type) :=
| Resolved (a : A) (w : World)
| Rejected (e : Error) (w : World).
Arguments Resolved {A} a w.
Arguments Rejected {A} e w.

Definition Task (A : Type) : Type := World -> Outcome A.

Definition resolve {A} (a : A) : Task A := fun w => Resolved a w.
Definition throw {A} (e : Error) : Task A := fun w => Rejected e w.

Definition andThen {A B} (t : Task A) (k : A -> Task B) : Task B :=
  fun w => match t w with
           | Resolved a w' => k a w'
           | Rejected e w' => Rejected e w'
           end.

Definition tryCatch {A} (t : Task A) (handler : Error -> Task A) : Task A :=
  fun w => match t w with
           | Resolved a w' => Resolved a w'
           | Rejected e w' => handler e w'
           end.

Notation "'await' x <- t ; k" := (andThen t (fun x => k))
  (at level 10, x name, t at level 100, k at level 200, only parsing).

(** One statement sent to the database: [sem] is what the statement
    does when the database runs it at clock reading [now]; it yields no
    result when a modelled constraint is violated. *)
Definition statement {A} (E : Runtime)
    (sem : Z -> DB -> option A * DB) : Task A :=
  fun w =>
    let n := issued w in
    if rejects E n then Rejected DatabaseError (mkWorld (db w) (S n))
    else match sem (now E n) (db w) with
         | (Some a, d) => Resolved a (mkWorld d (S n))
         | (None, d) => Rejected DatabaseError (mkWorld d (S n))
         end.

Definition query {A} (q : DB -> option A) : Z -> DB -> option A * DB :=
  fun _ d => (q d, d).

(** ** Statements of the storage layer, as the database runs them *)

(** [db.insert(rooms).values(room).returning()]: the id is drawn from
    the sequence, which stays advanced even when the primary key
    refuses the row. *)
Definition insert_rooms (room : InsertRoom) : Z -> DB -> option Room * DB :=
  fun t d =>
    let id := rooms_seq d + 1 in
    let row := mkRoom id (ir_name room) (ir_description room)
                      (ir_createdBy room) t t in
    if existsb (fun r => r_id r =? id) (rooms d)
    then (None, mkDB (users d) (rooms d) id (messages d) (messages_seq d)
                     (roomMembers d) (roomMembers_seq d))
    else (Some row, mkDB (users d) (rooms d ++ [row]) id
                         (messages d) (messages_seq d)
                         (roomMembers d) (roomMembers_seq d)).

(** [db.insert(roomMembers).values({ userId, roomId }).onConflictDoNothing()]:
    a conflict is a clash with a unique constraint of the table, and
    room_members has its primary key [id] and no other. *)
Definition insert_roomMembers_onConflictDoNothing (userId : string) (roomId : Z)
    : Z -> DB -> option unit * DB :=
  fun t d =>
    let id := roomMembers_seq d + 1 in
    let row := mkRoomMember id userId roomId t in
    if existsb (fun rm => rm_id rm =? id) (roomMembers d)
    then (Some tt, mkDB (users d) (rooms d) (rooms_seq d)
                        (messages d) (messages_seq d) (roomMembers d) id)
    else (Some tt, mkDB (users d) (rooms d) (rooms_seq d)
                        (messages d) (messages_seq d)
                        (roomMembers d ++ [row]) id).

(** [db.delete(roomMembers).where(and(eq(userId), eq(roomId)))]. *)
Definition delete_roomMembers (userId : string) (roomId : Z)
    : Z -> DB -> option unit * DB :=
  fun _ d =>
    (Some tt,
     mkDB (users d) (rooms d) (rooms_seq d) (messages d) (messages_seq d)
          (List.filter (fun rm => negb (String.eqb (rm_userId rm) userId
                                        && (rm_roomId rm =? roomId)))
                       (roomMembers d))
          (roomMembers_seq d)).

(** [db.insert(messages).values(message).returning()]. *)
Definition insert_messages (message : InsertMessage)
    : Z -> DB -> option Message * DB :=
  fun t d =>
    let id := messages_seq d + 1 in
    let row := mkMessage id (im_content message) (im_userId message)
                         (im_roomId message) t in
    if existsb (fun m => m_id m =? id) (messages d)
    then (None, mkDB (users d) (rooms d) (rooms_seq d) (messages d) id
                     (roomMembers d) (roomMembers_seq d))
    else (Some row, mkDB (users d) (rooms d) (rooms_seq d)
                         (messages d ++ [row]) id
                         (roomMembers d) (roomMembers_seq d)).

(** [from(messages).innerJoin(users, eq(messages.userId, users.id))]:
    a message is paired with the user row of its author and dropped
    when there is none. *)
Definition messages_innerJoin_users (d : DB) : list (Message * User) :=
  flat_map (fun m => match users d !! m_userId m with
                     | Some u => [(m, u)]
                     | None => []
                     end) (messages d).

(** [.limit(limit).offset(offset)]: skip [offset] rows, keep the next
    [limit]; the database refuses a negative count. *)
Definition limit_offset {A} (limit offset : Z) (rows : list A)
    : option (list A) :=
  if (limit <? 0) || (offset <? 0) then None
  else Some (firstn (Z.to_nat limit) (skipn (Z.to_nat offset) rows)).

Definition limit_ {A} (limit : Z) (rows : list A) : option (list A) :=
  if limit <? 0 then None else Some (firstn (Z.to_nat limit) rows).

(** [msgs.map(m => ({ ...m.message, user: m.user }))]. *)
Definition withUser (row : Message * User) : MessageWithUser :=
  mkMessageWithUser row.1 row.2.

(** The rows of [getRooms]' select, before and after grouping. *)
Definition RoomJoinRow : Type := Room * option User * option RoomMember.

Definition rooms_leftJoin_users (d : DB) : list (Room * option User) :=
  map (fun r => (r, users d !! r_createdBy r)) (rooms d).

Definition leftJoin_roomMembers (d : DB) (rows : list (Room * option User))
    : list RoomJoinRow :=
  flat_map (fun ru =>
              match List.filter (fun rm => r_id ru.1 =? rm_roomId rm)
                                (roomMembers d) with
              | [] => [(ru, None)]
              | ms => map (fun rm => (ru, Some rm)) ms
              end) rows.

(** [.groupBy(rooms.id, users.id)]. *)
Definition group_key (row : RoomJoinRow) : Z * option string :=
  (r_id row.1.1, u_id <$> row.1.2).

Definition groupBy (rows : list RoomJoinRow) : list (list RoomJoinRow) :=
  map (fun k => List.filter (fun row => bool_decide (group_key row = k)) rows)
      (remove_dups (map group_key rows)).

(** [count(room_members.id)]: the rows of the group whose member id is
    not null. *)
Definition count_member_id (g : list RoomJoinRow) : Z :=
  Z.of_nat (length (List.filter (fun row => match row.2 with
                                            | Some _ => true
                                            | None => false
                                            end) g)).

Definition select_roomsWithDetails (d : DB) : list (Room * option User * Z) :=
  flat_map (fun g => match g with
                     | row :: _ => [(row.1.1, row.1.2, count_member_id g)]
                     | [] => []
                     end)
           (groupBy (leftJoin_roomMembers d (rooms_leftJoin_users d))).

Definition placeholder_creator : User :=
  mkUser "" None None None None None None.

(** ** [DatabaseStorage] *)

Definition getRooms (E : Runtime) : Task (list RoomWithDetails) :=
  await roomsWithDetails <-
    statement E (query (fun d => Some (select_roomsWithDetails d)));
  resolve (map (fun room =>
                  mkRoomWithDetails room.1.1
                    (default placeholder_creator room.1.2) room.2)
               roomsWithDetails).

Definition getRoomById (E : Runtime) (id : Z) : Task (option Room) :=
  await found <-
    statement E (query (fun d =>
      Some (List.filter (fun r => r_id r =? id) (rooms d))));
  resolve (head found).

Definition joinRoom (E : Runtime) (userId : string) (roomId : Z) : Task unit :=
  statement E (insert_roomMembers_onConflictDoNothing userId roomId).

Definition createRoom (E : Runtime) (room : InsertRoom) : Task Room :=
  await newRoom <- statement E (insert_rooms room);
  await _ <- joinRoom E (ir_createdBy room) (r_id newRoom);
  resolve newRoom.

Definition leaveRoom (E : Runtime) (userId : string) (roomId : Z) : Task unit :=
  statement E (delete_roomMembers userId roomId).

Definition getUserRooms (E : Runtime) (userId : string) : Task (list Room) :=
  statement E (query (fun d =>
    Some (flat_map (fun rm =>
                      if String.eqb (rm_userId rm) userId
                      then List.filter (fun r => rm_roomId rm =? r_id r) (rooms d)
                      else [])
                   (roomMembers d)))).

Definition getMessages (E : Runtime) (roomId : Z) (limit offset : option Z)
    : Task (list MessageWithUser) :=
  let limit := default 50 limit in
  let offset := default 0 offset in
  await msgs <-
    statement E (query (fun d =>
      limit_offset limit offset
        (orderByDesc E
           (List.filter (fun row => m_roomId row.1 =? roomId)
                        (messages_innerJoin_users d)))));
  resolve (rev (map withUser msgs)).

Definition createMessage (E : Runtime) (message : InsertMessage) : Task Message :=
  statement E (insert_messages message).

Definition getLatestMessages (E : Runtime) (roomId : Z) (since : option JSDate)
    : Task (list MessageWithUser) :=
  let q : DB -> option (list (Message * User)) :=
    fun d => Some (orderByDesc E
                     (List.filter (fun row => m_roomId row.1 =? roomId)
                                  (messages_innerJoin_users d))) in
  let q : DB -> option (list (Message * User)) :=
    match since with
    | Some (ValidDate t) =>
        fun d => Some (orderByDesc E
                         (List.filter (fun row => (m_roomId row.1 =? roomId)
                                                  && (t <? m_createdAt row.1))
                                      (messages_innerJoin_users d)))
    | Some InvalidDate => fun _ => None
    | None => q
    end in
  await msgs <- statement E (query (fun d => q d ≫= limit_ 50));
  resolve (rev (map withUser msgs)).

Definition getRoomMembers (E : Runtime) (roomId : Z) : Task (list User) :=
  statement E (query (fun d =>
    Some (flat_map (fun rm =>
                      if rm_roomId rm =? roomId
                      then match users d !! rm_userId rm with
                           | Some u => [u]
                           | None => []
                           end
                      else [])
                   (roomMembers d)))).

(** ** [parseInt] and the operators around it

    Strings are sequences of characters with codes below 256.  The
    number [parseInt] returns is kept as the exact integer it read: the
    runtime rounds numerals beyond 2^53, which changes neither whether
    the result is [NaN] nor whether it is zero. *)

Inductive JSNumber := NaN | Num (z : Z).

Definition isNaN (n : JSNumber) : bool :=
  match n with NaN => true | Num _ => false end.

Definition code (c : ascii) : Z := Z.of_N (N_of_ascii c).

(** White space and line terminators that [parseInt] skips. *)
Definition isStrWhiteSpaceChar (c : ascii) : bool :=
  let n := code c in
  ((9 <=? n) && (n <=? 13)) || (n =? 32) || (n =? 160).

Fixpoint trimStart (s : string) : string :=
  match s with
  | String c rest => if isStrWhiteSpaceChar c then trimStart rest else s
  | EmptyString => EmptyString
  end.

Definition digitValue (c : ascii) : option Z :=
  let n := code c in
  if (48 <=? n) && (n <=? 57) then Some (n - 48)
  else if (97 <=? n) && (n <=? 122) then Some (n - 87)
  else if (65 <=? n) && (n <=? 90) then Some (n - 55)
  else None.

(** The longest prefix of radix-[R] digits. *)
Fixpoint radixDigits (R : Z) (s : string) : list Z :=
  match s with
  | String c rest =>
      match digitValue c with
      | Some v => if v <? R then v :: radixDigits R rest else []
      | None => []
      end
  | EmptyString => []
  end.

Definition stripSign (s : string) : bool * string :=
  match s with
  | String "-" rest => (true, rest)
  | String "+" rest => (false, rest)
  | _ => (false, s)
  end.

Definition stripPrefix (s : string) : Z * string :=
  match s with
  | String "0" (String "x" rest) => (16, rest)
  | String "0" (String "X" rest) => (16, rest)
  | _ => (10, s)
  end.

(** [parseInt(string)] with no radix argument. *)
Definition parseInt (input : string) : JSNumber :=
  let '(negative, s) := stripSign (trimStart input) in
  let '(R, s) := stripPrefix s in
  match radixDigits R s with
  | [] => NaN
  | ds =>
      let mathInt := fold_left (fun acc d => acc * R + d) ds 0 in
      Num (if negative : bool then - mathInt else mathInt)
  end.

(** [n || d] on numbers: [NaN] and zero are falsy. *)
Definition orElse (n : JSNumber) (d : Z) : Z :=
  match n with
  | NaN => d
  | Num z => if z =? 0 then d else z
  end.

(** [ToString] of a query parameter that may be undefined. *)
Definition toString (v : option string) : string :=
  default "undefined" v.

(** ** The route layer *)

(** What a handler reads of its request, behind [isAuthenticated]: the
    subject of the session, the [roomId] segment of the path, the query
    values (each absent or a single string) and the [content] of the
    body when it is a string. *)
Record Request := mkRequest {
  claims_sub : string;
  params_roomId : string;
  query_limit : option string;
  query_offset : option string;
  query_since : option string;
  body_content : option string
}.

Inductive Json :=
| JMessage (message : string)
| JMessages (l : list MessageWithUser)
| JMessageWithUser (m : MessageWithUser)
| JMessageRow (m : Message)
| JUsers (l : list User).

Record Response := mkResponse {
  status : Z;
  body : Json
}.

(** [res.json(x)] answers with status 200. *)
Definition json (b : Json) : Response := mkResponse 200 b.

(** [insertMessageSchema.parse]: the content has to be a string. *)
Definition insertMessageSchema_parse (content : option string)
    (userId : string) (roomId : Z) : Task InsertMessage :=
  match content with
  | Some c => resolve (mkInsertMessage c userId roomId)
  | None => throw ZodError
  end.

(** The values the message listing reads from its query string. *)
Definition limit_param (req : Request) : Z :=
  orElse (parseInt (toString (query_limit req))) 50.

Definition offset_param (req : Request) : Z :=
  orElse (parseInt (toString (query_offset req))) 0.

Definition since_param (E : Runtime) (req : Request) : option JSDate :=
  match query_since req with
  | Some EmptyString => None
  | Some s => Some (newDate E s)
  | None => None
  end.

(** [POST /api/rooms/:roomId/join] *)
Definition post_join (E : Runtime) (req : Request) : Task Response :=
  tryCatch
    (let userId := claims_sub req in
     match parseInt (params_roomId req) with
     | NaN => resolve (mkResponse 400 (JMessage "Invalid room ID"))
     | Num roomId =>
         await room <- getRoomById E roomId;
         match room with
         | None => resolve (mkResponse 404 (JMessage "Room not found"))
         | Some _ =>
             await _ <- joinRoom E userId roomId;
             resolve (json (JMessage "Joined room successfully"))
         end
     end)
    (fun _ => resolve (mkResponse 500 (JMessage "Failed to join room"))).

(** [POST /api/rooms/:roomId/leave] *)
Definition post_leave (E : Runtime) (req : Request) : Task Response :=
  tryCatch
    (let userId := claims_sub req in
     match parseInt (params_roomId req) with
     | NaN => resolve (mkResponse 400 (JMessage "Invalid room ID"))
     | Num roomId =>
         await _ <- leaveRoom E userId roomId;
         resolve (json (JMessage "Left room successfully"))
     end)
    (fun _ => resolve (mkResponse 500 (JMessage "Failed to leave room"))).

(** [GET /api/rooms/:roomId/messages] *)
Definition get_messages (E : Runtime) (req : Request) : Task Response :=
  tryCatch
    (let roomId := parseInt (params_roomId req) in
     let limit := limit_param req in
     let offset := offset_param req in
     let since := since_param E req in
     match roomId with
     | NaN => resolve (mkResponse 400 (JMessage "Invalid room ID"))
     | Num roomId =>
         await messages <-
           match since with
           | Some s => getLatestMessages E roomId (Some s)
           | None => getMessages E roomId (Some limit) (Some offset)
           end;
         resolve (json (JMessages messages))
     end)
    (fun _ => resolve (mkResponse 500 (JMessage "Failed to fetch messages"))).

(** [POST /api/rooms/:roomId/messages] *)
Definition post_messages (E : Runtime) (req : Request) : Task Response :=
  tryCatch
    (let userId := claims_sub req in
     match parseInt (params_roomId req) with
     | NaN => resolve (mkResponse 400 (JMessage "Invalid room ID"))
     | Num roomId =>
         await messageData <-
           insertMessageSchema_parse (body_content req) userId roomId;
         await message <- createMessage E messageData;
         await messageWithUser <- getMessages E roomId (Some 1) None;
         resolve (mkResponse 201
                    match head messageWithUser with
                    | Some first => JMessageWithUser first
                    | None => JMessageRow message
                    end)
     end)
    (fun _ => resolve (mkResponse 500 (JMessage "Failed to send message"))).


(** ** Invariants of the store

    What the primary keys and their sequences guarantee for the three
    serial tables. *)

Definition pk_below_seq (d : DB) : Prop :=
  Forall (fun r => r_id r <= rooms_seq d) (rooms d) /\
  Forall (fun m => m_id m <= messages_seq d) (messages d) /\
  Forall (fun rm => rm_id rm <= roomMembers_seq d) (roomMembers d).

Definition pk_unique (d : DB) : Prop :=
  NoDup (map r_id (rooms d)) /\
  NoDup (map m_id (messages d)) /\
  NoDup (map rm_id (roomMembers d)).

Definition consistent (d : DB) : Prop := pk_below_seq d /\ pk_unique d.

(** Referential integrity of messages: every author has a user row. *)
Definition authors_exist (d : DB) : Prop :=
  forall m, In m (messages d) -> is_Some (users d !! m_userId m).

(** No two membership rows for the same (user, room) pair. *)
Definition same_pair (a b : RoomMember) : Prop :=
  rm_userId a = rm_userId b /\ rm_roomId a = rm_roomId b.

Definition membership_unique (d : DB) : Prop :=
  forall i j a b,
    roomMembers d !! i = Some a -> roomMembers d !! j = Some b ->
    same_pair a b -> i = j.

Definition is_member (d : DB) (userId : string) (roomId : Z) : Prop :=
  exists rm, In rm (roomMembers d) /\ rm_userId rm = userId /\ rm_roomId rm = roomId.

(** ** Properties stated of the code *)

(** A room row written by the call without its creator's membership. *)
Definition orphaned_by (w w' : World) (r : Room) : Prop :=
  In r (rooms (db w')) /\ ~ In r (rooms (db w)) /\
  ~ is_member (db w') (r_createdBy r) (r_id r).

(** Atomicity of room creation: a resolved [createRoom] leaves the room
    and its creator's membership, a rejected one leaves no orphaned
    room. *)
Definition createRoom_atomic (E : Runtime) (room : InsertRoom) (w : World) : Prop :=
  match createRoom E room w with
  | Resolved newRoom w' =>
      In newRoom (rooms (db w')) /\
      is_member (db w') (ir_createdBy room) (r_id newRoom)
  | Rejected _ w' => forall r, ~ orphaned_by w w' r
  end.

(** The rows a poll with [since = t] asks for. *)
Definition newer_than (roomId t : Z) (m : Message) : bool :=
  (m_roomId m =? roomId) && (t <? m_createdAt m).

Definition older_first (a b : MessageWithUser) : Prop :=
  m_createdAt (mw_message a) <= m_createdAt (mw_message b).

(** Ascending by creation time: for all i < j, the i-th is not newer
    than the j-th. *)
Definition ascending (l : list MessageWithUser) : Prop :=
  forall i j a b,
    (i < j)%nat -> l !! i = Some a -> l !! j = Some b -> older_first a b.

(** Among equal timestamps the lower id comes first. *)
Definition ties_by_id (l : list MessageWithUser) : Prop :=
  forall i j a b,
    (i < j)%nat -> l !! i = Some a -> l !! j = Some b ->
    m_createdAt (mw_message a) = m_createdAt (mw_message b) ->
    m_id (mw_message a) < m_id (mw_message b).

(** Display order with its tie rule: listed messages are ascending and
    equal timestamps follow the id order. *)
Definition ordered_with_ties_by_id (E : Runtime) (w : World) (roomId : Z) : Prop :=
  forall res w',
    getMessages E roomId None None w = Resolved res w' ->
    ascending res /\ ties_by_id res.





(** The text starts with a numeral as [parseInt] reads one: after
    leading white space, an optional sign and an optional [0x], the next
    character is a digit of the radix. *)
Definition numeralStart (s : string) : bool :=
  let '(R, t) := stripPrefix (stripSign (trimStart s)).2 in
  match t with
  | String c _ =>
      match digitValue c with
      | Some v => v <? R
      | None => false
      end
  | EmptyString => false
  end.




(** The membership rows of a room, counted. *)
Definition member_count (d : DB) (roomId : Z) : Z :=
  Z.of_nat (length (List.filter (fun rm => rm_roomId rm =? roomId)
                                (roomMembers d))).

(** What [getRooms] is to return for a room of the store. *)
Definition details_of (d : DB) (r : Room) : RoomWithDetails :=
  mkRoomWithDetails r
    match users d !! r_createdBy r with
    | Some creator => creator
    | None => placeholder_creator
    end
    (member_count d (r_id r)).

(** The rows the second left join makes out of one room. *)
Definition member_rows (d : DB) (ru : Room * option User) : list RoomJoinRow :=
  match List.filter (fun rm => r_id ru.1 =? rm_roomId rm) (roomMembers d) with
  | [] => [(ru, None)]
  | ms => map (fun rm => (ru, Some rm)) ms
  end.

Definition aggregate (groups : list (list RoomJoinRow))
    : list (Room * option User * Z) :=
  flat_map (fun g => match g with
                     | row :: _ => [(row.1.1, row.1.2, count_member_id g)]
                     | [] => []
                     end) groups.

(** The rows of a room that [getMessages] can show: its messages whose
    author has a user row. *)
Definition room_rows (d : DB) (roomId : Z) : list (Message * User) :=
  List.filter (fun row => m_roomId row.1 =? roomId) (messages_innerJoin_users d).

(** Nothing is taken away: rooms and messages of [d] are still there in
    [d'], in place, and every user id of [d] still has a row. *)
Definition never_shrinks (d d' : DB) : Prop :=
  (exists added, rooms d' = rooms d ++ added) /\
  (exists added, messages d' = messages d ++ added) /\
  (forall id, is_Some (users d !! id) -> is_Some (users d' !! id)).

(** ** A concrete platform

    An engine that sorts with a stable insertion sort over the scan
    order: rows with equal timestamps stay in the order the table holds
    them.  It instantiates [Runtime] for every choice of rejected
    statements and of clock. *)

Fixpoint insert_desc (x : Message * User) (l : list (Message * User))
    : list (Message * User) :=
  match l with
  | [] => [x]
  | y :: l' =>
      if m_createdAt y.1 <=? m_createdAt x.1 then x :: l
      else y :: insert_desc x l'
  end.

Definition sort_desc (l : list (Message * User)) : list (Message * User) :=
  foldr insert_desc [] l.

Lemma insert_desc_perm x l : Permutation (insert_desc x l) (x :: l).
Proof.
  induction l as [|y l IH]; simpl; [done|].
  destruct (m_createdAt y.1 <=? m_createdAt x.1); [done|].
  rewrite IH. apply perm_swap.
Qed.

Lemma sort_desc_perm l : Permutation (sort_desc l) l.
Proof.
  induction l as [|x l IH]; simpl; [done|].
  rewrite insert_desc_perm. by constructor.
Qed.

Lemma insert_desc_sorted x l :
  Sorted newer_first l -> Sorted newer_first (insert_desc x l).
Proof.
  induction l as [|y l IH]; simpl; intros Hs.
  - repeat constructor.
  - destruct (Z.leb_spec (m_createdAt y.1) (m_createdAt x.1)) as [Hle|Hgt].
    + constructor; [done|]. constructor. exact Hle.
    + apply Sorted_inv in Hs as [Hs Hhd].
      constructor; [by apply IH|].
      destruct l as [|z l]; simpl.
      * constructor. unfold newer_first. lia.
      * destruct (Z.leb_spec (m_createdAt z.1) (m_createdAt x.1)).
        -- constructor. unfold newer_first. lia.
        -- constructor. by apply HdRel_inv in Hhd.
Qed.

Lemma sort_desc_sorted l : Sorted newer_first (sort_desc l).
Proof.
  induction l as [|x l IH]; simpl; [constructor|].
  by apply insert_desc_sorted.
Qed.

(** A [Date] constructor for the concrete platform: a decimal numeral
    is read as an instant, anything else is the invalid date. *)
Definition epochDate (s : string) : JSDate :=
  match parseInt s with
  | Num t => ValidDate t
  | NaN => InvalidDate
  end.

Definition stable_runtime (rej : nat -> bool) (clock : nat -> Z) : Runtime :=
  mkRuntime sort_desc sort_desc_perm sort_desc_sorted rej clock epochDate.

(** The platform on which no statement is rejected and the clock shows
    1000 at the first statement and advances by one with each. *)
Definition steady : Runtime :=
  stable_runtime (fun _ => false) (fun n => 1000 + Z.of_nat n).

(** A platform that loses the second statement sent to it. *)
Definition second_lost : Runtime :=
  stable_runtime (fun n => Nat.eqb n 1) (fun n => 1000 + Z.of_nat n).

Definition fresh_world : World := mkWorld empty_db 0.

(** ** Sample data *)

Definition alice : User :=
  mkUser "alice" (Some "alice@example.org") (Some "Alice") None None None None.
Definition bob : User :=
  mkUser "bob" (Some "bob@example.org") (Some "Bob") None None None None.

Definition general : Room := mkRoom 1 "general" None "alice" 5 5.

(** Room 1 with "hi" and then "there", sent at different instants. *)
Definition sample_db : DB :=
  {| users := <["alice" := alice]> (<["bob" := bob]> ∅);
     rooms := [general]; rooms_seq := 1;
     messages := [mkMessage 1 "hi" "alice" 1 10;
                  mkMessage 2 "there" "bob" 1 20];
     messages_seq := 2;
     roomMembers := [mkRoomMember 1 "alice" 1 5; mkRoomMember 2 "bob" 1 7];
     roomMembers_seq := 2 |}.

Definition sample_world : World := mkWorld sample_db 0.

(** The same room when both messages carry the same timestamp. *)
Definition tied_db : DB :=
  {| users := <["alice" := alice]> (<["bob" := bob]> ∅);
     rooms := [general]; rooms_seq := 1;
     messages := [mkMessage 1 "hi" "alice" 1 10;
                  mkMessage 2 "there" "bob" 1 10];
     messages_seq := 2;
     roomMembers := [mkRoomMember 1 "alice" 1 5; mkRoomMember 2 "bob" 1 7];
     roomMembers_seq := 2 |}.

Definition tied_world : World := mkWorld tied_db 0.

(** ** [DatabaseStorage]: users

    A value of [UpsertUser] ([typeof users.$inferInsert]) may leave each
    column undefined, and each nullable column null: [None] is
    undefined, [Some None] is null.  Undefined columns take the column
    default on insert and are left alone by [set] on update. *)

Record UpsertUser := mkUpsertUser {
  uu_id : option string;
  uu_email : option (option string);
  uu_firstName : option (option string);
  uu_lastName : option (option string);
  uu_profileImageUrl : option (option string);
  uu_createdAt : option (option Z);
  uu_updatedAt : option (option Z)
}.

(** [users.email] is declared [unique()]: a non-null email may belong
    to one row only. *)
Definition email_taken (d : DB) (id : string) (email : option string) : bool :=
  match email with
  | None => false
  | Some e =>
      existsb (fun kv : string * User =>
                 negb (String.eqb kv.1 id)
                 && bool_decide (u_email kv.2 = Some e))
              (map_to_list (users d))
  end.

(** [db.insert(users).values(userData).onConflictDoUpdate({ target:
    users.id, set: { ...userData, updatedAt: new Date() } }).returning()].
    [uuid] is what [gen_random_uuid()] yields when the id is left out,
    [today] is the server's [new Date()]. *)
Definition upsert_users (userData : UpsertUser) (uuid : string) (today : Z)
    : Z -> DB -> option User * DB :=
  fun t d =>
    let id := default uuid (uu_id userData) in
    let row :=
      match users d !! id with
      | None =>
          mkUser id
                 (default None (uu_email userData))
                 (default None (uu_firstName userData))
                 (default None (uu_lastName userData))
                 (default None (uu_profileImageUrl userData))
                 (default (Some t) (uu_createdAt userData))
                 (default (Some t) (uu_updatedAt userData))
      | Some old =>
          mkUser (default (u_id old) (uu_id userData))
                 (default (u_email old) (uu_email userData))
                 (default (u_firstName old) (uu_firstName userData))
                 (default (u_lastName old) (uu_lastName userData))
                 (default (u_profileImageUrl old) (uu_profileImageUrl userData))
                 (default (u_createdAt old) (uu_createdAt userData))
                 (Some today)
      end in
    if email_taken d id (u_email row) then (None, d)
    else (Some row,
          mkDB (<[id := row]> (users d)) (rooms d) (rooms_seq d)
               (messages d) (messages_seq d)
               (roomMembers d) (roomMembers_seq d)).

Definition getUser (E : Runtime) (id : string) : Task (option User) :=
  await found <-
    statement E (query (fun d =>
      Some match users d !! id with
           | Some u => [u]
           | None => []
           end));
  resolve (head found).

Definition upsertUser (E : Runtime) (userData : UpsertUser)
    (uuid : string) (today : Z) : Task User :=
  statement E (upsert_users userData uuid today).

(** Another row holds the email. *)
Definition email_clash (d : DB) (id : string) (email : option string) : Prop :=
  exists k u e,
    email = Some e /\ users d !! k = Some u /\ k <> id /\ u_email u = Some e.

(** No two user rows share an email. *)
Definition emails_unique (d : DB) : Prop :=
  forall k1 k2 u1 u2 e,
    users d !! k1 = Some u1 -> users d !! k2 = Some u2 ->
    u_email u1 = Some e -> u_email u2 = Some e -> k1 = k2.

(** The email a row will hold after an upsert. *)
Definition email_after (d : DB) (userData : UpsertUser) (id : string)
    : option string :=
  default (match users d !! id with
           | Some old => u_email old
           | None => None
           end) (uu_email userData).

(** ** The room routes

    What the body of a create-room request holds under a key: nothing,
    null, a string, or a value of another type. *)

Inductive BodyValue := BAbsent | BNull | BString (s : string) | BOther.

Record RoomBody := mkRoomBody {
  b_name : BodyValue;
  b_description : BodyValue;
  b_createdBy : BodyValue
}.

Record RoomRequest := mkRoomRequest {
  rr_sub : string;
  rr_body : RoomBody
}.

Inductive RoomJson :=
| RMessage (message : string)
| RUser (u : option User)
| RRooms (l : list Room)
| RRoom (r : Room)
| RRoomsWithDetails (l : list RoomWithDetails).

Record RoomResponse := mkRoomResponse {
  r_status : Z;
  r_body : RoomJson
}.

(** [{ ...req.body, createdBy: userId }]: the later key wins. *)
Definition withCreatedBy (body : RoomBody) (userId : string) : RoomBody :=
  mkRoomBody (b_name body) (b_description body) (BString userId).

(** [insertRoomSchema.parse]: the name and the creator have to be
    strings, the description a string, null or absent; [nameOk] stands
    for the length rule the generated schema puts on the name. *)
Definition insertRoomSchema_parse (nameOk : string -> bool) (candidate : RoomBody)
    : Task InsertRoom :=
  match b_name candidate, b_createdBy candidate with
  | BString name, BString creator =>
      if nameOk name then
        match b_description candidate with
        | BString description =>
            resolve (mkInsertRoom name (Some description) creator)
        | BAbsent | BNull => resolve (mkInsertRoom name None creator)
        | BOther => throw ZodError
        end
      else throw ZodError
  | _, _ => throw ZodError
  end.

(** [GET /api/auth/user] *)
Definition get_auth_user (E : Runtime) (sub : string) : Task RoomResponse :=
  tryCatch
    (await user <- getUser E sub;
     resolve (mkRoomResponse 200 (RUser user)))
    (fun _ => resolve (mkRoomResponse 500 (RMessage "Failed to fetch user"))).

(** [GET /api/rooms] *)
Definition get_rooms (E : Runtime) (sub : string) : Task RoomResponse :=
  tryCatch
    (await userRooms <- getUserRooms E sub;
     resolve (mkRoomResponse 200 (RRooms userRooms)))
    (fun _ => resolve (mkRoomResponse 500 (RMessage "Failed to fetch rooms"))).

(** [POST /api/rooms] *)
Definition post_rooms (E : Runtime) (nameOk : string -> bool)
    (req : RoomRequest) : Task RoomResponse :=
  tryCatch
    (let userId := rr_sub req in
     await roomData <-
       insertRoomSchema_parse nameOk (withCreatedBy (rr_body req) userId);
     await room <- createRoom E roomData;
     resolve (mkRoomResponse 201 (RRoom room)))
    (fun _ => resolve (mkRoomResponse 500 (RMessage "Failed to create room"))).

(** [GET /api/rooms/all] *)
Definition get_rooms_all (E : Runtime) : Task RoomResponse :=
  tryCatch
    (await allRooms <- getRooms E;
     resolve (mkRoomResponse 200 (RRoomsWithDetails allRooms)))
    (fun _ => resolve (mkRoomResponse 500 (RMessage "Failed to fetch rooms"))).

(** ** The client side

    [String(n)] for an integer, as the sidebar writes a room id into
    the path of a request: decimal digits, a minus sign when negative.
    This is what JavaScript prints for the integers it holds exactly,
    those of magnitude below 2^53; it is used for these only. *)
Definition numberToString (n : Z) : string :=
  DecimalString.NilZero.string_of_int (Z.to_int n).

(** [Sidebar]: the rooms offered for joining,
    [allRooms.filter(room => !userRoomIds.has(room.id))] with
    [userRoomIds = new Set(rooms.map(room => room.id))]. *)
Definition userRoomIds (rooms : list Room) : gset Z :=
  list_to_set (map r_id rooms).

Definition availableRooms (rooms : list Room) (allRooms : list RoomWithDetails)
    : list RoomWithDetails :=
  List.filter (fun room => negb (bool_decide (r_id (rd_room room) ∈ userRoomIds rooms)))
              allRooms.

(** [String.prototype.trim]. *)
Fixpoint trimEnd (s : string) : string :=
  match s with
  | EmptyString => EmptyString
  | String c rest =>
      match trimEnd rest with
      | EmptyString => if isStrWhiteSpaceChar c then EmptyString
                       else String c EmptyString
      | kept => String c kept
      end
  end.

Definition trim (s : string) : string := trimEnd (trimStart s).

(** [s || ''] and the truth value of a nullable string: null and the
    empty string are falsy. *)
Definition truthy (s : option string) : bool :=
  match s with
  | Some (String _ _) => true
  | _ => false
  end.

Definition orString (s : option string) (other : string) : string :=
  match s with
  | Some (String c rest) => String c rest
  | _ => other
  end.

(** [getDisplayName] of [UsersPanel] and [ChatArea] (and the same
    expression in [Sidebar]):
    [user.firstName || user.lastName
       ? `${user.firstName || ''} ${user.lastName || ''}`.trim()
       : user.email || 'User']. *)
Definition getDisplayName (user : User) : string :=
  if truthy (u_firstName user) || truthy (u_lastName user)
  then trim (orString (u_firstName user) "" ++ " "
             ++ orString (u_lastName user) "")%string
  else orString (u_email user) "User".

(** [getColorForUser]: numbers are kept as the integers they are; the
    shift works on the 32-bit two's complement reading of its operand. *)
Definition colors : list string :=
  ["bg-chat-accent"; "bg-chat-green"; "bg-orange-500";
   "bg-purple-500"; "bg-pink-500"; "bg-indigo-500";
   "bg-teal-500"; "bg-yellow-500"; "bg-red-500"].

Definition toInt32 (z : Z) : Z := (z + 2 ^ 31) mod 2 ^ 32 - 2 ^ 31.

(** [a << n] *)
Definition shiftLeft (a n : Z) : Z :=
  toInt32 (Z.shiftl (toInt32 a) (Z.land n 31)).

(** One round of the loop:
    [hash = userId.charCodeAt(i) + ((hash << 5) - hash)]. *)
Definition hashStep (hash : Z) (c : ascii) : Z :=
  code c + (shiftLeft hash 5 - hash).

Definition userHash (userId : string) : Z :=
  fold_left hashStep (list_ascii_of_string userId) 0.

Definition getColorForUser (userId : string) : option string :=
  colors !! Z.to_nat (Z.rem (Z.abs (userHash userId)) (Z.of_nat (length colors))).

(** ** Statements, one at a time *)

Lemma statement_accepted {A} E (sem : Z -> DB -> option A * DB) w :
  rejects E (issued w) = false ->
  statement E sem w =
    match sem (now E (issued w)) (db w) with
    | (Some a, d) => Resolved a (mkWorld d (S (issued w)))
    | (None, d) => Rejected DatabaseError (mkWorld d (S (issued w)))
    end.
Proof. intros H. unfold statement. by rewrite H. Qed.

Lemma statement_rejected {A} E (sem : Z -> DB -> option A * DB) w :
  rejects E (issued w) = true ->
  statement E sem w = Rejected DatabaseError (mkWorld (db w) (S (issued w))).
Proof. intros H. unfold statement. by rewrite H. Qed.

(** Every statement leaves its mark on the counter, whatever comes of
    it: a world that is unchanged has seen no statement. *)
Lemma statement_counts {A} E (sem : Z -> DB -> option A * DB) w :
  match statement E sem w with
  | Resolved _ w' | Rejected _ w' => issued w' = S (issued w)
  end.
Proof.
  unfold statement. destruct (rejects E (issued w)); [done|].
  by destruct (sem _ _) as [[a|] d].
Qed.

(** C5. Without [since], [getLatestMessages] is [getMessages] with its
    default paging (limit 50, offset 0): the two calls have the same
    outcome in every state of the store, on every platform. *)
Theorem getLatestMessages_without_since E roomId w :
  getLatestMessages E roomId None w = getMessages E roomId None None w /\
  getMessages E roomId None None w = getMessages E roomId (Some 50) (Some 0) w.
Proof.
  split; [|reflexivity].
  unfold getLatestMessages, getMessages, andThen, statement, query.
  destruct (rejects E (issued w)); reflexivity.
Qed.

(** ** Room ids and paging parameters in the routes *)

(** When the text has no digit where a numeral would start, [parseInt]
    has nothing to read. *)
Lemma parseInt_no_digit s c rest :
  (stripSign (trimStart s)).2 = String c rest ->
  digitValue c = None ->
  parseInt s = NaN.
Proof.
  unfold parseInt. destruct (stripSign (trimStart s)) as [neg s'].
  simpl. intros -> Hc.
  assert (Hp : stripPrefix (String c rest) = (10, String c rest)).
  { unfold stripPrefix.
    destruct c as [[] [] [] [] [] [] [] []]; try reflexivity; discriminate. }
  rewrite Hp. simpl. by rewrite Hc.
Qed.

Example parseInt_letters : parseInt "abc" = NaN.
Proof. reflexivity. Qed.

(** A numeral followed by other text is read up to that text. *)
Example parseInt_prefix : parseInt "12abc" = Num 12.
Proof. reflexivity. Qed.













(** Texts that are not numbers and are served all the same, and texts
    that are rejected. *)
Example numeralStart_samples :
  map numeralStart ["1abc"; " 7"; "0x10"; "-5"; "12.5"] = [true; true; true; true; true] /\
  map numeralStart ["abc"; ""; "-"; "0x"; "x1"; "one"] = [false; false; false; false; false; false] /\
  map parseInt ["1abc"; " 7"; "0x10"] = [Num 1; Num 7; Num 16].
Proof. repeat split. Qed.




(** With [limit=0] the sample room is listed in full. *)
Example listing_limit_zero :
  get_messages steady (mkRequest "alice" "1" (Some "0") None None None)
    sample_world
  = Resolved
      (json (JMessages
               [mkMessageWithUser (mkMessage 1 "hi" "alice" 1 10) alice;
                mkMessageWithUser (mkMessage 2 "there" "bob" 1 20) bob]))
      (mkWorld sample_db 1).
Proof. vm_compute. reflexivity. Qed.

(** ** Sorted lists, cut and reversed *)

Section sorted_lists.
Context {A : Type} (R : relation A).

Lemma StronglySorted_lookup_lt (l : list A) i j a b :
  StronglySorted R l -> (i < j)%nat ->
  l !! i = Some a -> l !! j = Some b -> R a b.
Proof.
  intros Hs. revert i j.
  induction Hs as [|x l Hs IH Hx]; intros i j Hij Hi Hj; [done|].
  destruct j as [|j]; [lia|]. destruct i as [|i]; simpl in *.
  - injection Hi as <-. by eapply Forall_lookup_1.
  - eapply (IH i j); [lia|done..].
Qed.

Lemma StronglySorted_firstn (l : list A) n :
  StronglySorted R l -> StronglySorted R (firstn n l).
Proof.
  intros Hs. rewrite <- (firstn_skipn n l) in Hs.
  by apply StronglySorted_app_1_l in Hs.
Qed.

Lemma StronglySorted_skipn (l : list A) n :
  StronglySorted R l -> StronglySorted R (skipn n l).
Proof.
  intros Hs. rewrite <- (firstn_skipn n l) in Hs.
  by apply StronglySorted_app_1_r in Hs.
Qed.

Lemma StronglySorted_firstn_skipn (l : list A) n a b :
  StronglySorted R l -> In a (firstn n l) -> In b (skipn n l) -> R a b.
Proof.
  intros Hs Ha Hb. rewrite <- (firstn_skipn n l) in Hs.
  apply (StronglySorted_app_1_elem_of R _ _ a b Hs);
    by apply list_elem_of_In.
Qed.

Lemma StronglySorted_rev_map {B} (R' : relation B) (f : A -> B) (l : list A) :
  (forall a b, R a b -> R' (f b) (f a)) ->
  StronglySorted R l -> StronglySorted R' (rev (map f l)).
Proof.
  intros Hf Hs. induction Hs as [|x l Hs IH Hx]; simpl; [constructor|].
  apply StronglySorted_app. split; [|split; [done|repeat constructor]].
  intros y z Hy Hz. apply list_elem_of_In in Hy, Hz.
  destruct Hz as [<-|[]]. apply in_rev, in_map_iff in Hy as (y' & <- & Hy').
  apply Hf. rewrite Forall_forall in Hx. apply Hx. by apply list_elem_of_In.
Qed.
End sorted_lists.

#[local] Instance newer_first_transitive : Transitive newer_first.
Proof. unfold newer_first. intros a b c ? ?. lia. Qed.

Lemma orderByDesc_strongly E l : StronglySorted newer_first (orderByDesc E l).
Proof. apply Sorted_StronglySorted; [apply _|apply orderByDesc_sorted]. Qed.

(** ** The order of listed messages *)

Lemma page_ascending E rows n k :
  ascending (rev (map withUser (firstn n (skipn k (orderByDesc E rows))))).
Proof.
  intros i j a b. apply StronglySorted_lookup_lt.
  apply (StronglySorted_rev_map newer_first); [by intros [] []|].
  apply StronglySorted_firstn, StronglySorted_skipn, orderByDesc_strongly.
Qed.

(** C4, as the code has it. When its statement is accepted (and the
    paging counts are not negative, the date is valid), [getMessages]
    and [getLatestMessages] resolve with a list that is ascending by
    creation time: for all i < j, result[i].createdAt <=
    result[j].createdAt.  Nothing is said about messages with equal
    timestamps: the query orders by [created_at] alone. *)
Theorem listed_messages_ascending E roomId w :
  rejects E (issued w) = false ->
  (forall limit offset,
     0 <= default 50 limit -> 0 <= default 0 offset ->
     exists res,
       getMessages E roomId limit offset w
         = Resolved res (mkWorld (db w) (S (issued w))) /\
       ascending res) /\
  (forall since,
     since <> Some InvalidDate ->
     exists res,
       getLatestMessages E roomId since w
         = Resolved res (mkWorld (db w) (S (issued w))) /\
       ascending res).
Proof.
  intros Hacc. split.
  - intros limit offset Hl Ho.
    unfold getMessages, andThen. rewrite (statement_accepted _ _ _ Hacc).
    unfold query, limit_offset.
    replace (default 50 limit <? 0) with false by (symmetry; apply Z.ltb_ge; lia).
    replace (default 0 offset <? 0) with false by (symmetry; apply Z.ltb_ge; lia).
    simpl. eexists. split; [reflexivity|]. apply page_ascending.
  - intros since Hvalid.
    unfold getLatestMessages, andThen. rewrite (statement_accepted _ _ _ Hacc).
    unfold query.
    destruct since as [[t|]|]; [| done |]; simpl;
      (eexists; split; [reflexivity|]);
      apply (page_ascending E _ 50 0).
Qed.

Lemma listed_messages_ascending_witness :
  (exists res,
     getMessages steady 1 None None sample_world
       = Resolved res (mkWorld sample_db 1) /\ ascending res) /\
  (exists res,
     getLatestMessages steady 1 (Some (ValidDate 10)) sample_world
       = Resolved res (mkWorld sample_db 1) /\ ascending res).
Proof.
  destruct (listed_messages_ascending steady 1 sample_world eq_refl)
    as [Hget Hlatest].
  split.
  - apply (Hget None None); done.
  - apply (Hlatest (Some (ValidDate 10))). discriminate.
Defined.

(** C4, as stated, fails: on the stable engine two messages of one
    instant come back with the later insert first, against the id
    order. *)
Lemma ties_not_by_id : ~ ordered_with_ties_by_id steady tied_world 1.
Proof.
  intros H.
  destruct (H _ _ eq_refl) as [_ Hties].
  specialize (Hties 0%nat 1%nat _ _ ltac:(lia) eq_refl eq_refl eq_refl).
  vm_compute in Hties. discriminate.
Qed.

(** ** Messages joined with their authors *)

Lemma in_messages_innerJoin_users d m u :
  In (m, u) (messages_innerJoin_users d) <->
  In m (messages d) /\ users d !! m_userId m = Some u.
Proof.
  unfold messages_innerJoin_users. rewrite in_flat_map. split.
  - intros (m' & Hin & Hrow).
    destruct (users d !! m_userId m') as [u'|] eqn:Hu; [|done].
    destruct Hrow as [[= -> ->]|[]]. done.
  - intros [Hin Hu]. exists m. split; [done|]. rewrite Hu. by left.
Qed.

Lemma messages_innerJoin_users_fst d :
  authors_exist d -> map fst (messages_innerJoin_users d) = messages d.
Proof.
  unfold authors_exist, messages_innerJoin_users.
  induction (messages d) as [|m l IH]; intros Hall; [done|].
  simpl. destruct (Hall m (or_introl eq_refl)) as [u Hu]. rewrite Hu.
  simpl. f_equal. apply IH. intros m' Hm'. apply Hall. by right.
Qed.

Lemma in_firstn {A} (x : A) n l : In x (firstn n l) -> In x l.
Proof.
  intros H. rewrite <- (firstn_skipn n l). apply in_or_app. by left.
Qed.

Lemma messages_innerJoin_users_length d :
  (length (messages_innerJoin_users d) <= length (messages d))%nat.
Proof.
  unfold messages_innerJoin_users.
  induction (messages d) as [|m l IH]; [done|].
  simpl. rewrite length_app.
  destruct (users d !! m_userId m); simpl; lia.
Qed.

Lemma filter_map_fst {A B} (P : A -> bool) (l : list (A * B)) :
  map fst (List.filter (fun row => P row.1) l) = List.filter P (map fst l).
Proof.
  induction l as [|[a b] l IH]; [done|].
  simpl. destruct (P a); simpl; by rewrite IH.
Qed.

(** C3. In a store whose messages all have their author's user row,
    [getLatestMessages roomId t] resolves with messages of the room that
    are strictly newer than [t], each with its author; together with a
    remainder they are exactly the room's messages newer than [t]; they
    are 50 or all of them, whichever is fewer; and no message left out is
    newer than one returned.  In particular nothing with [createdAt <= t]
    or from another room is returned. *)
Theorem getLatestMessages_since E roomId t w :
  rejects E (issued w) = false ->
  authors_exist (db w) ->
  let qualifying := List.filter (newer_than roomId t) (messages (db w)) in
  exists res rest,
    getLatestMessages E roomId (Some (ValidDate t)) w
      = Resolved res (mkWorld (db w) (S (issued w))) /\
    Permutation (map mw_message res ++ rest) qualifying /\
    length res = Nat.min 50 (length qualifying) /\
    (forall e x, In e res -> In x rest ->
                 m_createdAt x <= m_createdAt (mw_message e)) /\
    (forall e, In e res ->
               m_roomId (mw_message e) = roomId /\
               t < m_createdAt (mw_message e) /\
               users (db w) !! m_userId (mw_message e) = Some (mw_user e)).
Proof.
  intros Hacc Hauthors qualifying.
  set (Q := List.filter (fun row : Message * User =>
                           (m_roomId row.1 =? roomId) && (t <? m_createdAt row.1))
                        (messages_innerJoin_users (db w))).
  set (sorted := orderByDesc E Q).
  assert (HQ : map fst Q = qualifying).
  { unfold Q, qualifying.
    rewrite <- (messages_innerJoin_users_fst _ Hauthors).
    exact (filter_map_fst (newer_than roomId t) _). }
  assert (Hperm : Permutation sorted Q) by apply orderByDesc_perm.
  exists (rev (map withUser (firstn 50 sorted))), (map fst (skipn 50 sorted)).
  split; [|split; [|split; [|split]]].
  - unfold getLatestMessages, andThen.
    rewrite (statement_accepted _ _ _ Hacc). reflexivity.
  - rewrite <- HQ.
    transitivity (map fst sorted); [|by apply Permutation_map].
    replace (map fst sorted)
      with (map fst (firstn 50 sorted) ++ map fst (skipn 50 sorted))
      by (by rewrite <- map_app, firstn_skipn).
    apply Permutation_app_tail.
    rewrite map_rev, map_map. symmetry.
    exact (Permutation_rev (map fst (firstn 50 sorted))).
  - rewrite length_rev, length_map, length_firstn.
    by rewrite <- HQ, length_map, (Permutation_length Hperm).
  - intros e x He Hx.
    apply in_rev, in_map_iff in He as (row & <- & Hrow).
    apply in_map_iff in Hx as (row' & <- & Hrow').
    apply (StronglySorted_firstn_skipn newer_first sorted 50 row row');
      [apply orderByDesc_strongly|done..].
  - intros e He.
    apply in_rev, in_map_iff in He as (row & <- & Hrow).
    apply in_firstn in Hrow.
    apply (Permutation_in _ Hperm) in Hrow.
    apply filter_In in Hrow as [Hjoin Hwhere].
    destruct row as [m u]. simpl in *.
    apply in_messages_innerJoin_users in Hjoin as [_ Hu].
    apply andb_prop in Hwhere as [Hroom Hnew].
    repeat split; [lia|lia|done].
Qed.

Lemma getLatestMessages_since_witness :
  exists res rest,
    getLatestMessages steady 1 (Some (ValidDate 10)) sample_world
      = Resolved res (mkWorld sample_db 1) /\
    Permutation (map mw_message res ++ rest)
                (List.filter (newer_than 1 10) (messages sample_db)) /\
    length res
      = Nat.min 50 (length (List.filter (newer_than 1 10) (messages sample_db))) /\
    (forall e x, In e res -> In x rest ->
                 m_createdAt x <= m_createdAt (mw_message e)) /\
    (forall e, In e res ->
               m_roomId (mw_message e) = 1 /\
               10 < m_createdAt (mw_message e) /\
               users sample_db !! m_userId (mw_message e) = Some (mw_user e)).
Proof.
  apply (getLatestMessages_since steady 1 10 sample_world eq_refl).
  intros m [<-|[<-|[]]]; vm_compute; eauto.
Defined.

(** Polling the sample room with the timestamp of "hi" yields "there"
    alone. *)
Example poll_since_hi :
  getLatestMessages steady 1 (Some (ValidDate 10)) sample_world
  = Resolved [mkMessageWithUser (mkMessage 2 "there" "bob" 1 20) bob]
             (mkWorld sample_db 1).
Proof. vm_compute. reflexivity. Qed.

(** ** Primary keys and sequences *)

Section serial_keys.
Context {A : Type} (id_of : A -> Z).

Lemma next_id_absent (l : list A) seq :
  Forall (fun x => id_of x <= seq) l ->
  existsb (fun x => id_of x =? seq + 1) l = false.
Proof.
  induction 1 as [|x l Hx _ IH]; [done|].
  simpl. rewrite IH. replace (id_of x =? seq + 1) with false; [done|].
  symmetry. apply Z.eqb_neq. lia.
Qed.

Lemma below_seq_advance (l : list A) seq :
  Forall (fun x => id_of x <= seq) l ->
  Forall (fun x => id_of x <= seq + 1) l.
Proof.
  intros Hl. eapply Forall_impl; [exact Hl|]. intros x Hx. simpl in *. lia.
Qed.

Lemma below_seq_insert (l : list A) seq x :
  Forall (fun y => id_of y <= seq) l -> id_of x = seq + 1 ->
  Forall (fun y => id_of y <= seq + 1) (l ++ [x]).
Proof.
  intros Hl Hx. apply Forall_app. split; [by apply below_seq_advance|].
  constructor; [lia|constructor].
Qed.

Lemma unique_insert (l : list A) seq x :
  Forall (fun y => id_of y <= seq) l -> NoDup (map id_of l) ->
  id_of x = seq + 1 -> NoDup (map id_of (l ++ [x])).
Proof.
  intros Hl Hnd Hx. rewrite map_app. simpl.
  apply NoDup_app. split; [done|]. split; [|apply NoDup_singleton].
  intros i Hi Hix. apply list_elem_of_In in Hi, Hix.
  destruct Hix as [<-|[]].
  apply in_map_iff in Hi as (y & Hy & Hin).
  rewrite Forall_forall in Hl.
  apply list_elem_of_In, Hl in Hin. lia.
Qed.

Lemma unique_filter (P : A -> bool) (l : list A) :
  NoDup (map id_of l) -> NoDup (map id_of (List.filter P l)).
Proof.
  induction l as [|x l IH]; [done|].
  simpl. intros Hnd. apply NoDup_cons in Hnd as [Hx Hnd].
  destruct (P x); simpl; [|by apply IH].
  apply NoDup_cons. split; [|by apply IH].
  intros Hin. apply Hx.
  apply list_elem_of_In, in_map_iff in Hin as (y & Hy & Hin).
  apply filter_In in Hin as [Hin _].
  apply list_elem_of_In, in_map_iff. by exists y.
Qed.

Lemma below_seq_filter (P : A -> bool) (l : list A) seq :
  Forall (fun x => id_of x <= seq) l ->
  Forall (fun x => id_of x <= seq) (List.filter P l).
Proof.
  rewrite !Forall_forall. intros Hl x Hx. apply Hl.
  apply list_elem_of_In in Hx. apply filter_In in Hx as [Hx _].
  by apply list_elem_of_In.
Qed.
End serial_keys.

Lemma empty_db_consistent : consistent empty_db.
Proof. repeat split; simpl; constructor. Qed.

Lemma sample_db_consistent : consistent sample_db.
Proof. repeat split; compute_done. Qed.

Lemma insert_rooms_consistent room t d :
  consistent d -> consistent (insert_rooms room t d).2.
Proof.
  intros [(Hr & Hm & Hrm) (Ur & Um & Urm)]. unfold insert_rooms.
  rewrite (next_id_absent r_id _ _ Hr). simpl.
  repeat split; simpl; try done.
  - by apply below_seq_insert.
  - by eapply unique_insert.
Qed.

Lemma insert_messages_consistent message t d :
  consistent d -> consistent (insert_messages message t d).2.
Proof.
  intros [(Hr & Hm & Hrm) (Ur & Um & Urm)]. unfold insert_messages.
  rewrite (next_id_absent m_id _ _ Hm). simpl.
  repeat split; simpl; try done.
  - by apply below_seq_insert.
  - by eapply unique_insert.
Qed.

Lemma insert_roomMembers_consistent userId roomId t d :
  consistent d ->
  consistent (insert_roomMembers_onConflictDoNothing userId roomId t d).2.
Proof.
  intros [(Hr & Hm & Hrm) (Ur & Um & Urm)].
  unfold insert_roomMembers_onConflictDoNothing.
  rewrite (next_id_absent rm_id _ _ Hrm). simpl.
  repeat split; simpl; try done.
  - by apply below_seq_insert.
  - by eapply unique_insert.
Qed.

Lemma delete_roomMembers_consistent userId roomId t d :
  consistent d -> consistent (delete_roomMembers userId roomId t d).2.
Proof.
  intros [(Hr & Hm & Hrm) (Ur & Um & Urm)]. unfold delete_roomMembers.
  repeat split; simpl; try done.
  - by apply below_seq_filter.
  - by apply unique_filter.
Qed.

Lemma statement_preserves {A} E (sem : Z -> DB -> option A * DB)
    (P : DB -> Prop) w :
  (forall t d, P d -> P (sem t d).2) -> P (db w) ->
  match statement E sem w with
  | Resolved _ w' | Rejected _ w' => P (db w')
  end.
Proof.
  intros Hsem Hw. unfold statement.
  destruct (rejects E (issued w)); [done|].
  specialize (Hsem (now E (issued w)) (db w) Hw).
  by destruct (sem _ _) as [[a|] d].
Qed.

(** The store stays consistent under every writing method, whether it
    resolves or rejects. *)
Lemma storage_keeps_consistent E w :
  consistent (db w) ->
  (forall room, match createRoom E room w with
                | Resolved _ w' | Rejected _ w' => consistent (db w') end) /\
  (forall u r, match joinRoom E u r w with
               | Resolved _ w' | Rejected _ w' => consistent (db w') end) /\
  (forall u r, match leaveRoom E u r w with
               | Resolved _ w' | Rejected _ w' => consistent (db w') end) /\
  (forall message, match createMessage E message w with
                   | Resolved _ w' | Rejected _ w' => consistent (db w') end).
Proof.
  intros Hw. repeat split.
  - intros room. unfold createRoom, andThen.
    pose proof (statement_preserves E (insert_rooms room) consistent w
                  (insert_rooms_consistent room) Hw) as H1.
    destruct (statement E (insert_rooms room) w) as [newRoom w1|e w1]; [|done].
    pose proof (statement_preserves E
                  (insert_roomMembers_onConflictDoNothing (ir_createdBy room)
                     (r_id newRoom)) consistent w1
                  (insert_roomMembers_consistent _ _) H1) as H2.
    unfold joinRoom.
    by destruct (statement E _ w1) as [[] w2|e w2].
  - intros u r. apply statement_preserves; [|done].
    apply insert_roomMembers_consistent.
  - intros u r. apply statement_preserves; [|done].
    apply delete_roomMembers_consistent.
  - intros message. apply statement_preserves; [|done].
    apply insert_messages_consistent.
Qed.

(** ** Joining and creating rooms *)

(** On a store whose member ids lie below their sequence, an accepted
    [joinRoom] appends a row, whether or not the pair is already there:
    the new id clashes with no primary key. *)
Lemma joinRoom_inserts E userId roomId w :
  rejects E (issued w) = false ->
  pk_below_seq (db w) ->
  joinRoom E userId roomId w =
    Resolved tt
      (mkWorld
         (mkDB (users (db w)) (rooms (db w)) (rooms_seq (db w))
               (messages (db w)) (messages_seq (db w))
               (roomMembers (db w) ++
                  [mkRoomMember (roomMembers_seq (db w) + 1) userId roomId
                                (now E (issued w))])
               (roomMembers_seq (db w) + 1))
         (S (issued w))).
Proof.
  intros Hacc (_ & _ & Hrm). unfold joinRoom.
  rewrite (statement_accepted _ _ _ Hacc).
  unfold insert_roomMembers_onConflictDoNothing.
  by rewrite (next_id_absent rm_id _ _ Hrm).
Qed.

(** Joining twice appends two rows for the pair. *)
Lemma joinRoom_twice_appends E userId roomId w :
  rejects E (issued w) = false ->
  rejects E (S (issued w)) = false ->
  pk_below_seq (db w) ->
  exists w',
    (await _ <- joinRoom E userId roomId; joinRoom E userId roomId) w
      = Resolved tt w' /\
    roomMembers (db w') =
      roomMembers (db w) ++
        [mkRoomMember (roomMembers_seq (db w) + 1) userId roomId
                      (now E (issued w));
         mkRoomMember (roomMembers_seq (db w) + 1 + 1) userId roomId
                      (now E (S (issued w)))].
Proof.
  intros Hacc1 Hacc2 Hpk. unfold andThen.
  rewrite (joinRoom_inserts _ _ _ _ Hacc1 Hpk).
  rewrite joinRoom_inserts; [|done|].
  - eexists. split; [reflexivity|]. simpl. by rewrite <- app_assoc.
  - destruct Hpk as (Hr & Hm & Hrm).
    repeat split; simpl; [done|done|by apply below_seq_insert].
Qed.

(** C1, on the code. Joining room 1 twice as the same user, starting
    from the empty store, leaves two membership rows for the pair: the
    second insert meets no conflict, and the pair is no longer unique. *)
Theorem joinRoom_twice_duplicates :
  exists w',
    (await _ <- joinRoom steady "alice" 1; joinRoom steady "alice" 1) fresh_world
      = Resolved tt w' /\
    roomMembers (db w') =
      [mkRoomMember 1 "alice" 1 1000; mkRoomMember 2 "alice" 1 1001] /\
    ~ membership_unique (db w').
Proof.
  eexists. split; [vm_compute; reflexivity|]. split; [reflexivity|].
  intros Huniq.
  specialize (Huniq 0%nat 1%nat _ _ eq_refl eq_refl (conj eq_refl eq_refl)).
  discriminate.
Qed.

(** The rooms of a user then list the room once per row. *)
Example getUserRooms_after_joining_twice :
  (await _ <- createRoom steady (mkInsertRoom "general" None "alice");
   await _ <- joinRoom steady "alice" 1;
   getUserRooms steady "alice") fresh_world
  = Resolved [mkRoom 1 "general" None "alice" 1000 1000;
              mkRoom 1 "general" None "alice" 1000 1000]
      (mkWorld
         {| users := ∅;
            rooms := [mkRoom 1 "general" None "alice" 1000 1000];
            rooms_seq := 1; messages := []; messages_seq := 0;
            roomMembers := [mkRoomMember 1 "alice" 1 1001;
                            mkRoomMember 2 "alice" 1 1002];
            roomMembers_seq := 2 |} 4).
Proof. vm_compute. reflexivity. Qed.

(** C2, as stated, fails: when the second statement is lost,
    [createRoom] rejects and the room row it wrote stays behind without
    a membership. *)
Lemma createRoom_not_atomic :
  ~ createRoom_atomic second_lost (mkInsertRoom "general" None "alice") fresh_world.
Proof.
  unfold createRoom_atomic.
  replace (createRoom second_lost (mkInsertRoom "general" None "alice") fresh_world)
    with (@Rejected Room DatabaseError
            (mkWorld (mkDB ∅ [mkRoom 1 "general" None "alice" 1000 1000] 1
                           [] 0 [] 0) 2))
    by (vm_compute; reflexivity).
  intros H. apply (H (mkRoom 1 "general" None "alice" 1000 1000)).
  split; [by left|]. split; [by intros []|].
  by intros (rm & [] & _).
Qed.

(** C2, as the code has it. [createRoom] sends two statements of their
    own, on a consistent store: when both are accepted it resolves with
    the new room, and the room row and a membership row of its creator
    are in the store; when the room insert is rejected no row is
    written; when the membership insert is rejected the call fails and
    the room row stays, without a membership. *)
Theorem createRoom_two_statements E room w :
  consistent (db w) ->
  let n := issued w in
  let newRoom := mkRoom (rooms_seq (db w) + 1) (ir_name room)
                        (ir_description room) (ir_createdBy room)
                        (now E n) (now E n) in
  (rejects E n = false -> rejects E (S n) = false ->
   exists w',
     createRoom E room w = Resolved newRoom w' /\
     rooms (db w') = rooms (db w) ++ [newRoom] /\
     is_member (db w') (ir_createdBy room) (r_id newRoom)) /\
  (rejects E n = true ->
   exists w',
     createRoom E room w = Rejected DatabaseError w' /\
     rooms (db w') = rooms (db w) /\
     roomMembers (db w') = roomMembers (db w)) /\
  (rejects E n = false -> rejects E (S n) = true ->
   exists w',
     createRoom E room w = Rejected DatabaseError w' /\
     rooms (db w') = rooms (db w) ++ [newRoom] /\
     roomMembers (db w') = roomMembers (db w)).
Proof.
  intros [(Hr & Hm & Hrm) _] n newRoom.
  assert (Hins : insert_rooms room (now E n) (db w) =
                 (Some newRoom,
                  mkDB (users (db w)) (rooms (db w) ++ [newRoom])
                       (rooms_seq (db w) + 1) (messages (db w))
                       (messages_seq (db w)) (roomMembers (db w))
                       (roomMembers_seq (db w)))).
  { unfold insert_rooms. by rewrite (next_id_absent r_id _ _ Hr). }
  split; [|split].
  - intros Hacc1 Hacc2. unfold createRoom, andThen.
    rewrite (statement_accepted _ _ _ Hacc1). fold n. rewrite Hins.
    rewrite joinRoom_inserts; [|done|].
    2: { repeat split; simpl; [by apply below_seq_insert|done..]. }
    eexists. split; [reflexivity|]. split; [reflexivity|].
    eexists. split; [apply in_or_app; right; by left|done].
  - intros Hrej. unfold createRoom, andThen.
    rewrite (statement_rejected _ _ _ Hrej). by eexists.
  - intros Hacc1 Hrej2. unfold createRoom, andThen, joinRoom.
    rewrite (statement_accepted _ _ _ Hacc1). fold n. rewrite Hins.
    rewrite statement_rejected; [|done]. by eexists.
Qed.

Lemma createRoom_two_statements_witness :
  let room := mkInsertRoom "random" None "bob" in
  let newRoom := mkRoom 2 "random" None "bob" 1000 1000 in
  exists w',
    createRoom steady room sample_world = Resolved newRoom w' /\
    rooms (db w') = rooms sample_db ++ [newRoom] /\
    is_member (db w') "bob" 2.
Proof.
  destruct (createRoom_two_statements steady
              (mkInsertRoom "random" None "bob") sample_world
              sample_db_consistent)
    as (Hboth & _ & _).
  apply Hboth; reflexivity.
Defined.

(** ** Creating a message and reading it back *)

Lemma in_skipn {A} (x : A) n l : In x (skipn n l) -> In x l.
Proof.
  intros H. rewrite <- (firstn_skipn n l). apply in_or_app. by right.
Qed.

Lemma limit_offset_In {A} limit offset (rows page : list A) x :
  limit_offset limit offset rows = Some page -> In x page -> In x rows.
Proof.
  unfold limit_offset. destruct ((limit <? 0) || (offset <? 0)); [done|].
  intros [= <-] Hx. by apply in_firstn, in_skipn in Hx.
Qed.

(** Every entry [getMessages] returns is a message row of the room in
    the store, paired with the user row of its author. *)
Lemma getMessages_entries E roomId limit offset w res w' :
  getMessages E roomId limit offset w = Resolved res w' ->
  forall e, In e res ->
    In (mw_message e) (messages (db w)) /\
    m_roomId (mw_message e) = roomId /\
    users (db w) !! m_userId (mw_message e) = Some (mw_user e).
Proof.
  unfold getMessages, andThen, statement, query.
  destruct (rejects E (issued w)); [done|].
  destruct (limit_offset _ _ _) as [page|] eqn:Hpage; [|done].
  intros [= <- <-] e He.
  apply in_rev, in_map_iff in He as ([m u] & <- & Hrow).
  apply (limit_offset_In _ _ _ _ _ Hpage) in Hrow.
  apply (Permutation_in _ (orderByDesc_perm E _)) in Hrow.
  apply filter_In in Hrow as [Hjoin Hroom]. simpl in *.
  apply in_messages_innerJoin_users in Hjoin as [Hin Hu].
  repeat split; [done|lia|done].
Qed.

Lemma createMessage_inserts E message w :
  rejects E (issued w) = false ->
  pk_below_seq (db w) ->
  let row := mkMessage (messages_seq (db w) + 1) (im_content message)
                       (im_userId message) (im_roomId message)
                       (now E (issued w)) in
  createMessage E message w =
    Resolved row
      (mkWorld
         (mkDB (users (db w)) (rooms (db w)) (rooms_seq (db w))
               (messages (db w) ++ [row]) (messages_seq (db w) + 1)
               (roomMembers (db w)) (roomMembers_seq (db w)))
         (S (issued w))).
Proof.
  intros Hacc (_ & Hm & _). unfold createMessage.
  rewrite (statement_accepted _ _ _ Hacc). unfold insert_messages.
  by rewrite (next_id_absent m_id _ _ Hm).
Qed.

(** C8. On a store whose ids lie below their sequences, an accepted
    [createMessage] with content C resolves with a row of content C, and
    an accepted [getMessages] of that room right after it resolves with
    a list in which any entry carrying the id of the new row is that row,
    content unchanged, joined with the user row of its author.  When the
    author has a user row and the first page is large enough for the
    whole table, the new row is among the entries. *)
Theorem created_message_round_trip E message w limit offset :
  rejects E (issued w) = false ->
  rejects E (S (issued w)) = false ->
  pk_below_seq (db w) ->
  0 <= default 50 limit -> 0 <= default 0 offset ->
  exists row w1 res w2,
    createMessage E message w = Resolved row w1 /\
    m_content row = im_content message /\
    getMessages E (im_roomId message) limit offset w1 = Resolved res w2 /\
    (forall e, In e res -> m_id (mw_message e) = m_id row ->
               mw_message e = row /\
               m_content (mw_message e) = im_content message /\
               users (db w) !! im_userId message = Some (mw_user e)) /\
    (is_Some (users (db w) !! im_userId message) ->
     default 0 offset = 0 ->
     (length (messages (db w)) < Z.to_nat (default 50%Z limit))%nat ->
     exists e, In e res /\ mw_message e = row).
Proof.
  intros Hacc1 Hacc2 Hpk Hl Ho.
  pose proof Hpk as (_ & Hm & _).
  rewrite (createMessage_inserts _ _ _ Hacc1 Hpk).
  set (row := mkMessage _ _ _ _ _).
  set (w1 := mkWorld _ _).
  assert (Hget : exists res, getMessages E (im_roomId message) limit offset w1
                             = Resolved res (mkWorld (db w1) (S (issued w1)))).
  { unfold getMessages, andThen. rewrite (statement_accepted E _ w1 Hacc2).
    unfold query, limit_offset.
    replace (default 50 limit <? 0) with false by (symmetry; apply Z.ltb_ge; lia).
    replace (default 0 offset <? 0) with false by (symmetry; apply Z.ltb_ge; lia).
    simpl. by eexists. }
  destruct Hget as [res Hget].
  exists row, w1, res, (mkWorld (db w1) (S (issued w1))).
  split; [done|]. split; [done|]. split; [done|]. split.
  - intros e He Hid.
    destruct (getMessages_entries _ _ _ _ _ _ _ Hget e He) as (Hin & _ & Hu).
    simpl in Hin. apply in_app_or in Hin as [Hold|[Hnew|[]]].
    + rewrite Forall_forall in Hm.
      apply list_elem_of_In, Hm in Hold. simpl in Hid. lia.
    + rewrite <- Hnew in *. done.
  - intros [u Hu] Hoff Hlen.
    exists (mkMessageWithUser row u). split; [|done].
    revert Hget. unfold getMessages, andThen.
    rewrite (statement_accepted E _ w1 Hacc2). unfold query, limit_offset.
    replace (default 50 limit <? 0) with false by (symmetry; apply Z.ltb_ge; lia).
    rewrite Hoff. simpl. intros [= <-].
    apply in_rev. rewrite rev_involutive.
    apply (in_map withUser _ (row, u)).
    change (Z.to_nat 0) with 0%nat. rewrite skipn_O, firstn_all2.
    + apply (Permutation_in _ (Permutation_sym (orderByDesc_perm E _))).
      apply filter_In. split; [|simpl; lia].
      apply in_messages_innerJoin_users. simpl. split; [|done].
      apply in_or_app. right. by left.
    + rewrite (Permutation_length (orderByDesc_perm E _)).
      etrans; [apply filter_length_le|].
      etrans; [apply messages_innerJoin_users_length|].
      simpl. rewrite length_app. simpl. lia.
Qed.

Lemma created_message_round_trip_witness :
  let message := mkInsertMessage "hello" "bob" 1 in
  exists row w1 res w2,
    createMessage steady message sample_world = Resolved row w1 /\
    m_content row = "hello" /\
    getMessages steady 1 None None w1 = Resolved res w2 /\
    (forall e, In e res -> m_id (mw_message e) = m_id row ->
               mw_message e = row /\
               m_content (mw_message e) = "hello" /\
               users sample_db !! "bob" = Some (mw_user e)) /\
    (is_Some (users sample_db !! "bob") ->
     default 0 None = 0 ->
     (length (messages sample_db) < Z.to_nat (default 50%Z None))%nat ->
     exists e, In e res /\ mw_message e = row).
Proof.
  apply (created_message_round_trip steady (mkInsertMessage "hello" "bob" 1)
           sample_world None None); try reflexivity; try done.
  apply sample_db_consistent.
Defined.

(** "hi" then "there", listed in that order. *)
Example hi_then_there :
  (await _ <- createMessage steady (mkInsertMessage "hi" "alice" 1);
   await _ <- createMessage steady (mkInsertMessage "there" "alice" 1);
   await listed <- getMessages steady 1 (Some 50) None;
   resolve (map (fun e => m_content (mw_message e)) listed))
    (mkWorld (mkDB (<["alice" := alice]> ∅) [general] 1 [] 0
                   [mkRoomMember 1 "alice" 1 5] 1) 0)
  = Resolved ["hi"; "there"]
      (mkWorld (mkDB (<["alice" := alice]> ∅) [general] 1
                     [mkMessage 1 "hi" "alice" 1 1000;
                      mkMessage 2 "there" "alice" 1 1001] 2
                     [mkRoomMember 1 "alice" 1 5] 1) 3).
Proof. vm_compute. reflexivity. Qed.

(** ** Sending a message *)

(** A row newer than all others comes first in the engine's order. *)
Lemma orderByDesc_newest E rows r :
  (forall r', In r' rows -> m_createdAt r'.1 < m_createdAt r.1) ->
  exists rest, orderByDesc E (rows ++ [r]) = r :: rest.
Proof.
  intros Hnewest.
  pose proof (orderByDesc_perm E (rows ++ [r])) as Hperm.
  pose proof (orderByDesc_strongly E (rows ++ [r])) as Hsorted.
  destruct (orderByDesc E (rows ++ [r])) as [|h rest].
  - apply Permutation_nil in Hperm. by destruct rows.
  - exists rest. f_equal.
    assert (Hh : In h (rows ++ [r]))
      by (apply (Permutation_in _ Hperm); by left).
    apply in_app_or in Hh as [Hold|[Hh|[]]]; [|done].
    exfalso. specialize (Hnewest h Hold).
    assert (Hr : In r (h :: rest)).
    { apply (Permutation_in _ (Permutation_sym Hperm)).
      apply in_or_app. right. by left. }
    destruct Hr as [->|Hr]; [lia|].
    apply StronglySorted_inv in Hsorted as [_ Hall].
    rewrite Forall_forall in Hall.
    apply list_elem_of_In, Hall in Hr. unfold newer_first in Hr. lia.
Qed.

(** The handler answers with the first re-fetched entry and with the
    inserted row itself only when the re-fetch comes back empty. *)
Lemma post_messages_refetches E req w roomId c row w1 res w2 :
  parseInt (params_roomId req) = Num roomId ->
  body_content req = Some c ->
  createMessage E (mkInsertMessage c (claims_sub req) roomId) w
    = Resolved row w1 ->
  getMessages E roomId (Some 1) None w1 = Resolved res w2 ->
  post_messages E req w =
    Resolved (mkResponse 201
                match res with
                | first :: _ => JMessageWithUser first
                | [] => JMessageRow row
                end) w2.
Proof.
  intros Hroom Hbody Hcreate Hget.
  unfold post_messages, tryCatch, andThen at 1 2 3.
  rewrite Hroom, Hbody. simpl. rewrite Hcreate, Hget.
  by destruct res.
Qed.

(** C10. The send-message route answers with the first entry of
    [getMessages roomId 1] issued after the insert, and with the bare
    inserted row only if that list is empty.  When both statements are
    accepted, the author has a user row and every message already in the
    room is older than the insert (the execution is sequential and the
    clock moves on), the re-fetch holds exactly the new message and the
    answer is status 201 with that message and its author. *)
Theorem post_messages_answers_created E req w roomId c :
  parseInt (params_roomId req) = Num roomId ->
  body_content req = Some c ->
  (forall row w1 res w2,
     createMessage E (mkInsertMessage c (claims_sub req) roomId) w
       = Resolved row w1 ->
     getMessages E roomId (Some 1) None w1 = Resolved res w2 ->
     post_messages E req w =
       Resolved (mkResponse 201
                   match res with
                   | first :: _ => JMessageWithUser first
                   | [] => JMessageRow row
                   end) w2) /\
  (forall author,
     rejects E (issued w) = false ->
     rejects E (S (issued w)) = false ->
     pk_below_seq (db w) ->
     users (db w) !! claims_sub req = Some author ->
     (forall m, In m (messages (db w)) -> m_roomId m = roomId ->
                m_createdAt m < now E (issued w)) ->
     let created := mkMessage (messages_seq (db w) + 1) c (claims_sub req)
                              roomId (now E (issued w)) in
     exists w1 w2,
       createMessage E (mkInsertMessage c (claims_sub req) roomId) w
         = Resolved created w1 /\
       getMessages E roomId (Some 1) None w1
         = Resolved [mkMessageWithUser created author] w2 /\
       In created (messages (db w2)) /\
       post_messages E req w =
         Resolved (mkResponse 201
                     (JMessageWithUser (mkMessageWithUser created author))) w2).
Proof.
  intros Hroom Hbody. split.
  - intros row w1 res w2. by apply post_messages_refetches.
  - intros author Hacc1 Hacc2 Hpk Hauthor Holder created.
    pose proof (createMessage_inserts E (mkInsertMessage c (claims_sub req) roomId)
                  w Hacc1 Hpk) as Hcreate.
    simpl in Hcreate. fold created in Hcreate.
    set (w1 := mkWorld _ _) in Hcreate.
    assert (Hget : getMessages E roomId (Some 1) None w1
                   = Resolved [mkMessageWithUser created author]
                              (mkWorld (db w1) (S (issued w1)))).
    { assert (Hjoin : messages_innerJoin_users (db w1)
                      = messages_innerJoin_users (db w) ++ [(created, author)]).
      { unfold messages_innerJoin_users. simpl.
        rewrite flat_map_app. simpl. by rewrite Hauthor. }
      unfold getMessages, andThen.
      rewrite (statement_accepted E _ w1 Hacc2). unfold query, limit_offset.
      rewrite Hjoin, List.filter_app. simpl. rewrite Z.eqb_refl.
      destruct (orderByDesc_newest E
                  (List.filter (fun row : Message * User => m_roomId row.1 =? roomId)
                               (messages_innerJoin_users (db w)))
                  (created, author)) as [rest ->]; [|done].
      intros [m u] Hin. apply filter_In in Hin as [Hin Hr].
      apply in_messages_innerJoin_users in Hin as [Hin _].
      simpl in *. apply Holder; [done|lia]. }
    exists w1, (mkWorld (db w1) (S (issued w1))).
    split; [done|]. split; [done|]. split.
    + simpl. apply in_or_app. right. by left.
    + by rewrite (post_messages_refetches _ _ _ _ _ _ _ _ _ Hroom Hbody Hcreate Hget).
Qed.

Lemma post_messages_answers_created_witness :
  let req := mkRequest "alice" "1" None None None (Some "hello") in
  let created := mkMessage 3 "hello" "alice" 1 1000 in
  exists w1 w2,
    createMessage steady (mkInsertMessage "hello" "alice" 1) sample_world
      = Resolved created w1 /\
    getMessages steady 1 (Some 1) None w1
      = Resolved [mkMessageWithUser created alice] w2 /\
    In created (messages (db w2)) /\
    post_messages steady req sample_world =
      Resolved (mkResponse 201
                  (JMessageWithUser (mkMessageWithUser created alice))) w2.
Proof.
  destruct (post_messages_answers_created steady
              (mkRequest "alice" "1" None None None (Some "hello"))
              sample_world 1 "hello" eq_refl eq_refl) as [_ Hseq].
  apply (Hseq alice); try reflexivity.
  - apply sample_db_consistent.
  - intros m [<-|[<-|[]]] _; reflexivity.
Defined.

(** When the author has no user row the join hides the new message; in
    an empty room the re-fetch is empty and the bare row is the answer. *)
Example post_messages_bare_row :
  post_messages steady (mkRequest "carol" "7" None None None (Some "hello"))
    sample_world
  = Resolved (mkResponse 201 (JMessageRow (mkMessage 3 "hello" "carol" 7 1000)))
      (mkWorld
         (mkDB (users sample_db) (rooms sample_db) 1
               (messages sample_db ++ [mkMessage 3 "hello" "carol" 7 1000]) 3
               (roomMembers sample_db) 2) 2).
Proof. vm_compute. reflexivity. Qed.

(** ** Rooms with their details *)

Lemma member_rows_fst d ru row : In row (member_rows d ru) -> row.1 = ru.
Proof.
  unfold member_rows. destruct (List.filter _ _) as [|rm ms].
  - by intros [<-|[]].
  - intros Hin. by apply in_map_iff in Hin as (rm' & <- & _).
Qed.

Lemma member_rows_head d ru :
  exists row rest, member_rows d ru = row :: rest /\ row.1 = ru.
Proof.
  unfold member_rows. destruct (List.filter _ _) as [|rm ms]; simpl; eauto.
Qed.

Lemma member_rows_count d r u :
  count_member_id (member_rows d (r, u)) = member_count d (r_id r).
Proof.
  unfold count_member_id, member_count, member_rows. simpl. f_equal.
  replace (List.filter (fun rm => rm_roomId rm =? r_id r) (roomMembers d))
    with (List.filter (fun rm => r_id r =? rm_roomId rm) (roomMembers d))
    by (apply filter_ext; intros rm; apply Z.eqb_sym).
  destruct (List.filter _ (roomMembers d)) as [|rm ms]; [done|].
  assert (Hall : forall l : list RoomMember,
            length (List.filter
                      (fun row : RoomJoinRow =>
                         match row.2 with Some _ => true | None => false end)
                      (map (fun rm => (r, u, Some rm)) l)) = length l).
  { induction l as [|x l IH]; simpl; [done|]. by rewrite IH. }
  apply (Hall (rm :: ms)).
Qed.

Lemma remove_dups_block {A} `{EqDecision A} (x : A) (block l : list A) :
  block <> [] -> Forall (eq x) block -> ~ In x l ->
  remove_dups (block ++ l) = x :: remove_dups l.
Proof.
  intros Hne Hall Hnot. induction Hall as [|y block <- Hall IH]; [done|].
  simpl. destruct (decide_rel elem_of x (block ++ l)) as [Hin|Hnin].
  - destruct block as [|z block]; [|by apply IH].
    exfalso. apply Hnot. by apply list_elem_of_In.
  - destruct block as [|z block]; [done|].
    exfalso. apply Hnin. apply Forall_inv in Hall as <-. simpl. left.
Qed.

Lemma filter_all {A} (P : A -> bool) (l : list A) :
  (forall x, In x l -> P x = true) -> List.filter P l = l.
Proof.
  induction l as [|x l IH]; intros H; [done|].
  simpl. rewrite (H x (or_introl eq_refl)). f_equal.
  apply IH. intros y Hy. apply H. by right.
Qed.

Lemma filter_none {A} (P : A -> bool) (l : list A) :
  (forall x, In x l -> P x = false) -> List.filter P l = [].
Proof.
  induction l as [|x l IH]; intros H; [done|].
  simpl. rewrite (H x (or_introl eq_refl)).
  apply IH. intros y Hy. apply H. by right.
Qed.

(** Grouping the joined rows of rooms with distinct ids gives one group
    per room, made of the rows of that room. *)
Lemma aggregate_groupBy d (rs : list Room) :
  NoDup (map r_id rs) ->
  aggregate (groupBy (flat_map (member_rows d)
                        (map (fun r => (r, users d !! r_createdBy r)) rs)))
  = map (fun r => (r, users d !! r_createdBy r, member_count d (r_id r))) rs.
Proof.
  induction rs as [|r rs IH]; intros Hnd; [done|].
  apply NoDup_cons in Hnd as [Hr Hnd]. specialize (IH Hnd).
  simpl map. simpl flat_map.
  set (u := users d !! r_createdBy r) in *.
  set (rows' := flat_map (member_rows d)
                  (map (fun r => (r, users d !! r_createdBy r)) rs)) in *.
  set (k := (r_id r, u_id <$> u) : Z * option string).
  assert (Hkey : forall row, In row (member_rows d (r, u)) -> group_key row = k).
  { intros row Hrow. apply member_rows_fst in Hrow.
    unfold group_key. by rewrite Hrow. }
  assert (Hother : forall row, In row rows' -> group_key row <> k).
  { intros row Hrow Heq. apply Hr.
    apply in_flat_map in Hrow as (ru & Hru & Hrow).
    apply member_rows_fst in Hrow.
    apply in_map_iff in Hru as (r' & <- & Hr').
    unfold group_key, k in Heq. rewrite Hrow in Heq. simpl in Heq.
    injection Heq as Heq _. rewrite <- Heq.
    apply list_elem_of_In, in_map. done. }
  assert (Hkeys : remove_dups (map group_key (member_rows d (r, u) ++ rows'))
                  = k :: remove_dups (map group_key rows')).
  { rewrite map_app. apply remove_dups_block.
    - destruct (member_rows_head d (r, u)) as (row & rest & -> & _). done.
    - apply Forall_forall. intros x Hx.
      apply list_elem_of_In, in_map_iff in Hx as (row & <- & Hrow).
      symmetry. by apply Hkey.
    - intros Hin. apply in_map_iff in Hin as (row & Heq & Hrow).
      by apply (Hother row). }
  unfold groupBy. rewrite Hkeys. simpl map.
  assert (Hfirst : List.filter (fun row => bool_decide (group_key row = k))
                               (member_rows d (r, u) ++ rows')
                   = member_rows d (r, u)).
  { rewrite List.filter_app, filter_all, filter_none.
    - apply app_nil_r.
    - intros row Hrow. apply bool_decide_eq_false. by apply Hother.
    - intros row Hrow. apply bool_decide_eq_true. by apply Hkey. }
  rewrite Hfirst.
  assert (Hrest : map (fun k' => List.filter
                                   (fun row => bool_decide (group_key row = k'))
                                   (member_rows d (r, u) ++ rows'))
                      (remove_dups (map group_key rows'))
                  = groupBy rows').
  { unfold groupBy. apply map_ext_in. intros k' Hk'.
    rewrite List.filter_app, filter_none; [done|].
    intros row Hrow. apply bool_decide_eq_false. rewrite (Hkey row Hrow).
    intros <-.
    apply list_elem_of_In in Hk'. rewrite elem_of_remove_dups in Hk'.
    apply list_elem_of_In in Hk'.
    apply in_map_iff in Hk' as (row' & Heq & Hrow').
    by apply (Hother row'). }
  rewrite Hrest. unfold aggregate in *. simpl flat_map. rewrite IH.
  destruct (member_rows_head d (r, u)) as (row & rest & Hrows & Hrow).
  rewrite <- (member_rows_count d r u). rewrite Hrows.
  destruct row as [[r0 u0] rm0]. simpl in Hrow. injection Hrow as -> ->.
  reflexivity.
Qed.

(** C6. On a store whose rooms have distinct ids, an accepted
    [getRooms] resolves, and it returns, in some order, one entry per
    room: the room, its creator's user row, or the empty-profile
    placeholder when there is no such row, and the number of membership
    rows of the room. *)
Theorem getRooms_details E w :
  rejects E (issued w) = false ->
  NoDup (map r_id (rooms (db w))) ->
  exists res,
    getRooms E w = Resolved res (mkWorld (db w) (S (issued w))) /\
    Permutation res (map (details_of (db w)) (rooms (db w))) /\
    (forall r, In r (rooms (db w)) ->
       exists x, In x res /\ rd_room x = r /\
         rd_memberCount x = member_count (db w) (r_id r) /\
         rd_creator x = match users (db w) !! r_createdBy r with
                        | Some creator => creator
                        | None => placeholder_creator
                        end).
Proof.
  intros Hacc Hnd.
  assert (Hres : getRooms E w
                 = Resolved (map (details_of (db w)) (rooms (db w)))
                            (mkWorld (db w) (S (issued w)))).
  { unfold getRooms, andThen. rewrite (statement_accepted _ _ _ Hacc).
    unfold query, resolve. f_equal.
    unfold select_roomsWithDetails, leftJoin_roomMembers, rooms_leftJoin_users.
    change (flat_map _ (groupBy ?rows)) with (aggregate (groupBy rows)).
    change (flat_map _ ?l) with (flat_map (member_rows (db w)) l).
    rewrite (aggregate_groupBy (db w) _ Hnd), map_map.
    apply map_ext. intros r. unfold details_of. simpl.
    by destruct (users (db w) !! r_createdBy r). }
  eexists. split; [exact Hres|]. split; [done|].
  intros r Hr. exists (details_of (db w) r).
  split; [by apply in_map|]. done.
Qed.

Lemma getRooms_details_witness :
  exists res,
    getRooms steady sample_world = Resolved res (mkWorld sample_db 1) /\
    Permutation res (map (details_of sample_db) (rooms sample_db)) /\
    (forall r, In r (rooms sample_db) ->
       exists x, In x res /\ rd_room x = r /\
         rd_memberCount x = member_count sample_db (r_id r) /\
         rd_creator x = match users sample_db !! r_createdBy r with
                        | Some creator => creator
                        | None => placeholder_creator
                        end).
Proof.
  apply (getRooms_details steady sample_world eq_refl).
  apply sample_db_consistent.
Defined.

(** Alice creates "general", which she then sees as hers with one
    member; after Bob joins the count is two. *)
Example create_then_join :
  (await room <- createRoom steady (mkInsertRoom "general" None "alice");
   await mine <- getUserRooms steady "alice";
   await before <- getRooms steady;
   await _ <- joinRoom steady "bob" (r_id room);
   await after <- getRooms steady;
   resolve (map r_id mine, map rd_memberCount before, map rd_memberCount after))
    (mkWorld (mkDB (<["alice" := alice]> (<["bob" := bob]> ∅))
                   [] 0 [] 0 [] 0) 0)
  = Resolved ([1], [1], [2])
      (mkWorld (mkDB (<["alice" := alice]> (<["bob" := bob]> ∅))
                     [mkRoom 1 "general" None "alice" 1000 1000] 1 [] 0
                     [mkRoomMember 1 "alice" 1 1001;
                      mkRoomMember 2 "bob" 1 1004] 2) 6).
Proof. vm_compute. reflexivity. Qed.

(** A room whose creator has no user row, and one without members. *)
Example getRooms_placeholder :
  getRooms steady
    (mkWorld (mkDB (<["alice" := alice]> ∅)
                   [general; mkRoom 2 "lost" None "nobody" 6 6] 2 [] 0
                   [mkRoomMember 1 "alice" 1 5; mkRoomMember 2 "bob" 1 7] 2) 0)
  = Resolved
      [mkRoomWithDetails general alice 2;
       mkRoomWithDetails (mkRoom 2 "lost" None "nobody" 6 6)
                         placeholder_creator 0]
      (mkWorld (mkDB (<["alice" := alice]> ∅)
                     [general; mkRoom 2 "lost" None "nobody" 6 6] 2 [] 0
                     [mkRoomMember 1 "alice" 1 5; mkRoomMember 2 "bob" 1 7] 2) 1).
Proof. vm_compute. reflexivity. Qed.


(** ** Looking rooms up *)

Lemma query_accepted {A} E (q : DB -> option A) w :
  rejects E (issued w) = false ->
  statement E (query q) w =
    match q (db w) with
    | Some a => Resolved a (mkWorld (db w) (S (issued w)))
    | None => Rejected DatabaseError (mkWorld (db w) (S (issued w)))
    end.
Proof.
  intros Hacc. rewrite (statement_accepted _ _ _ Hacc). unfold query.
  by destruct (q (db w)).
Qed.

Lemma head_filter_Some {A} (P : A -> bool) (l : list A) x :
  head (List.filter P l) = Some x -> In x l /\ P x = true.
Proof.
  intros H. apply filter_In.
  destruct (List.filter P l) as [|y l'] eqn:Hl; [done|].
  injection H as ->. rewrite <- Hl. rewrite Hl. by left.
Qed.

Lemma head_filter_None {A} (P : A -> bool) (l : list A) :
  head (List.filter P l) = None <-> forall x, In x l -> P x = false.
Proof.
  split.
  - intros H x Hx. destruct (P x) eqn:HP; [|done].
    assert (Hin : In x (List.filter P l)) by (by apply filter_In).
    by destruct (List.filter P l).
  - intros H. by rewrite filter_none.
Qed.

Lemma unique_id_same {A} (id_of : A -> Z) (l : list A) a b :
  NoDup (map id_of l) -> In a l -> In b l -> id_of a = id_of b -> a = b.
Proof.
  induction l as [|x l IH]; [done|].
  simpl. intros Hnd Ha Hb Hid. apply NoDup_cons in Hnd as [Hx Hnd].
  destruct Ha as [->|Ha], Hb as [->|Hb]; [done| | |by apply IH].
  - exfalso. apply Hx. rewrite Hid. by apply list_elem_of_In, in_map.
  - exfalso. apply Hx. rewrite <- Hid. by apply list_elem_of_In, in_map.
Qed.

(** X1. On a store whose rooms have distinct ids, an accepted
    [getRoomById id] resolves, without changing the store, with the room
    of that id when there is one and with undefined when there is none. *)
Theorem getRoomById_lookup E id w :
  rejects E (issued w) = false ->
  NoDup (map r_id (rooms (db w))) ->
  exists found,
    getRoomById E id w = Resolved found (mkWorld (db w) (S (issued w))) /\
    (forall r, found = Some r <-> In r (rooms (db w)) /\ r_id r = id) /\
    (found = None <-> forall r, In r (rooms (db w)) -> r_id r <> id).
Proof.
  intros Hacc Hnd. unfold getRoomById, andThen.
  rewrite (query_accepted _ _ _ Hacc).
  eexists. split; [reflexivity|]. split.
  - intros r. split.
    + intros H. apply head_filter_Some in H as [Hin Hid]. split; [done|lia].
    + intros [Hin Hid].
      destruct (head (List.filter _ (rooms (db w)))) as [r'|] eqn:Hhead.
      * apply head_filter_Some in Hhead as [Hin' Hid'].
        f_equal. apply (unique_id_same r_id (rooms (db w))); [done..|lia].
      * rewrite head_filter_None in Hhead.
        specialize (Hhead r Hin). simpl in Hhead. lia.
  - rewrite head_filter_None. split.
    + intros H r Hr. specialize (H r Hr). simpl in H. lia.
    + intros H r Hr. specialize (H r Hr). simpl. lia.
Qed.

Lemma getRoomById_lookup_witness :
  exists found,
    getRoomById steady 1 sample_world = Resolved found (mkWorld sample_db 1) /\
    (forall r, found = Some r <-> In r (rooms sample_db) /\ r_id r = 1) /\
    (found = None <-> forall r, In r (rooms sample_db) -> r_id r <> 1).
Proof.
  apply (getRoomById_lookup steady 1 sample_world eq_refl).
  apply sample_db_consistent.
Defined.

(** What an accepted [createRoom] leaves behind. *)
Lemma createRoom_resolves E room w :
  pk_below_seq (db w) ->
  rejects E (issued w) = false ->
  rejects E (S (issued w)) = false ->
  let newRoom := mkRoom (rooms_seq (db w) + 1) (ir_name room)
                        (ir_description room) (ir_createdBy room)
                        (now E (issued w)) (now E (issued w)) in
  createRoom E room w =
    Resolved newRoom
      (mkWorld
         (mkDB (users (db w)) (rooms (db w) ++ [newRoom])
               (rooms_seq (db w) + 1) (messages (db w)) (messages_seq (db w))
               (roomMembers (db w) ++
                  [mkRoomMember (roomMembers_seq (db w) + 1)
                                (ir_createdBy room) (rooms_seq (db w) + 1)
                                (now E (S (issued w)))])
               (roomMembers_seq (db w) + 1))
         (S (S (issued w)))).
Proof.
  intros (Hr & Hm & Hrm) Hacc1 Hacc2 newRoom. unfold createRoom, andThen.
  rewrite (statement_accepted _ _ _ Hacc1). unfold insert_rooms.
  rewrite (next_id_absent r_id _ _ Hr).
  rewrite joinRoom_inserts; [done|done|].
  repeat split; simpl; [by apply below_seq_insert|done..].
Qed.

Lemma in_getUserRooms_rows d userId r :
  In r (flat_map (fun rm =>
                    if String.eqb (rm_userId rm) userId
                    then List.filter (fun r => rm_roomId rm =? r_id r) (rooms d)
                    else [])
                 (roomMembers d)) <->
  In r (rooms d) /\ is_member d userId (r_id r).
Proof.
  rewrite in_flat_map. split.
  - intros (rm & Hrm & Hr).
    destruct (String.eqb_spec (rm_userId rm) userId) as [Hu|]; [|done].
    apply filter_In in Hr as [Hr Hid]. split; [done|].
    exists rm. repeat split; [done..|lia].
  - intros [Hr (rm & Hrm & Hu & Hid)]. exists rm. split; [done|].
    rewrite Hu, String.eqb_refl. apply filter_In. split; [done|lia].
Qed.

(** X2. On a consistent store an accepted [createRoom] can be read
    back: [getRoomById] of the new id returns the room just created, and
    [getUserRooms] of the creator lists it. *)
Theorem createRoom_read_back E room w :
  consistent (db w) ->
  rejects E (issued w) = false ->
  rejects E (S (issued w)) = false ->
  rejects E (S (S (issued w))) = false ->
  exists newRoom w1 w2 mine,
    createRoom E room w = Resolved newRoom w1 /\
    r_name newRoom = ir_name room /\
    r_createdBy newRoom = ir_createdBy room /\
    getRoomById E (r_id newRoom) w1 = Resolved (Some newRoom) w2 /\
    getUserRooms E (ir_createdBy room) w1 = Resolved mine w2 /\
    In newRoom mine.
Proof.
  intros [Hpk Huniq] Hacc1 Hacc2 Hacc3.
  rewrite (createRoom_resolves _ _ _ Hpk Hacc1 Hacc2).
  set (newRoom := mkRoom _ _ _ _ _ _). set (w1 := mkWorld _ _).
  assert (Hnd : NoDup (map r_id (rooms (db w1)))).
  { destruct Hpk as (Hr & _), Huniq as (Ur & _). simpl.
    by apply (unique_insert r_id _ (rooms_seq (db w))). }
  assert (Hin : In newRoom (rooms (db w1))).
  { simpl. apply in_or_app. right. by left. }
  eexists newRoom, w1, _, _.
  split; [done|]. split; [done|]. split; [done|].
  split; [|split].
  - unfold getRoomById, andThen. rewrite (query_accepted E _ w1 Hacc3).
    destruct (head (List.filter _ (rooms (db w1)))) as [r'|] eqn:Hhead.
    + apply head_filter_Some in Hhead as [Hin' Hid'].
      do 2 f_equal.
      apply (unique_id_same r_id (rooms (db w1))); [done..|lia].
    + rewrite head_filter_None in Hhead. specialize (Hhead newRoom Hin).
      simpl in Hhead. lia.
  - unfold getUserRooms. rewrite (query_accepted E _ w1 Hacc3). reflexivity.
  - apply in_getUserRooms_rows. split; [done|].
    eexists. split; [simpl; apply in_or_app; right; by left|done].
Qed.

Lemma createRoom_read_back_witness :
  exists newRoom w1 w2 mine,
    createRoom steady (mkInsertRoom "random" None "bob") sample_world
      = Resolved newRoom w1 /\
    r_name newRoom = "random" /\
    r_createdBy newRoom = "bob" /\
    getRoomById steady (r_id newRoom) w1 = Resolved (Some newRoom) w2 /\
    getUserRooms steady "bob" w1 = Resolved mine w2 /\
    In newRoom mine.
Proof.
  apply (createRoom_read_back steady (mkInsertRoom "random" None "bob")
           sample_world sample_db_consistent); reflexivity.
Defined.

(** ** Leaving a room *)

Lemma leaveRoom_accepted E userId roomId w :
  rejects E (issued w) = false ->
  leaveRoom E userId roomId w =
    Resolved tt
      (mkWorld
         (mkDB (users (db w)) (rooms (db w)) (rooms_seq (db w))
               (messages (db w)) (messages_seq (db w))
               (List.filter (fun rm => negb (String.eqb (rm_userId rm) userId
                                             && (rm_roomId rm =? roomId)))
                            (roomMembers (db w)))
               (roomMembers_seq (db w)))
         (S (issued w))).
Proof.
  intros Hacc. unfold leaveRoom. by rewrite (statement_accepted _ _ _ Hacc).
Qed.

Lemma kept_by_leave userId roomId rm :
  negb (String.eqb (rm_userId rm) userId && (rm_roomId rm =? roomId)) = true <->
  ~ (rm_userId rm = userId /\ rm_roomId rm = roomId).
Proof.
  rewrite negb_true_iff, andb_false_iff, String.eqb_neq, Z.eqb_neq. split.
  - intros [H|H] [? ?]; by apply H.
  - intros H. destruct (decide (rm_userId rm = userId)) as [Hu|Hu]; [|by left].
    right. intros Hr. by apply H.
Qed.

(** X3. An accepted [leaveRoom] deletes every membership row of the
    (user, room) pair, however many there are, and nothing else: the
    rows of other pairs stay, and users, rooms and messages are as
    before. *)
Theorem leaveRoom_deletes_pair E userId roomId w :
  rejects E (issued w) = false ->
  exists w',
    leaveRoom E userId roomId w = Resolved tt w' /\
    ~ is_member (db w') userId roomId /\
    (forall rm, In rm (roomMembers (db w')) <->
                In rm (roomMembers (db w)) /\
                ~ (rm_userId rm = userId /\ rm_roomId rm = roomId)) /\
    users (db w') = users (db w) /\
    rooms (db w') = rooms (db w) /\
    messages (db w') = messages (db w).
Proof.
  intros Hacc. rewrite (leaveRoom_accepted _ _ _ _ Hacc).
  eexists. split; [reflexivity|]. simpl.
  assert (Hrows : forall rm,
            In rm (List.filter
                     (fun rm => negb (String.eqb (rm_userId rm) userId
                                      && (rm_roomId rm =? roomId)))
                     (roomMembers (db w))) <->
            In rm (roomMembers (db w)) /\
            ~ (rm_userId rm = userId /\ rm_roomId rm = roomId)).
  { intros rm. by rewrite filter_In, kept_by_leave. }
  split; [|by split].
  intros (rm & Hin & Hu & Hr). apply Hrows in Hin as [_ Hne]. by apply Hne.
Qed.

Lemma leaveRoom_deletes_pair_witness :
  exists w',
    leaveRoom steady "bob" 1 sample_world = Resolved tt w' /\
    ~ is_member (db w') "bob" 1 /\
    (forall rm, In rm (roomMembers (db w')) <->
                In rm (roomMembers sample_db) /\
                ~ (rm_userId rm = "bob" /\ rm_roomId rm = 1)) /\
    users (db w') = users sample_db /\
    rooms (db w') = rooms sample_db /\
    messages (db w') = messages sample_db.
Proof.
  apply (leaveRoom_deletes_pair steady "bob" 1 sample_world). reflexivity.
Defined.

(** X4. Leaving a room one is not a member of succeeds and leaves the
    store as it is; hence leaving twice leaves the store that leaving
    once does. *)
Theorem leaveRoom_idempotent E userId roomId w :
  rejects E (issued w) = false ->
  (~ is_member (db w) userId roomId ->
   leaveRoom E userId roomId w = Resolved tt (mkWorld (db w) (S (issued w)))) /\
  (rejects E (S (issued w)) = false ->
   exists w1 w2,
     leaveRoom E userId roomId w = Resolved tt w1 /\
     leaveRoom E userId roomId w1 = Resolved tt w2 /\
     db w2 = db w1).
Proof.
  intros Hacc. split.
  - intros Hnot. rewrite (leaveRoom_accepted _ _ _ _ Hacc).
    rewrite filter_all; [by destruct w as [[] ?]|].
    intros rm Hrm. apply kept_by_leave. intros [Hu Hr].
    apply Hnot. by exists rm.
  - intros Hacc2. rewrite (leaveRoom_accepted _ _ _ _ Hacc).
    eexists _, _. split; [reflexivity|].
    rewrite leaveRoom_accepted; [|done]. split; [reflexivity|].
    simpl. f_equal. apply filter_all.
    intros rm Hrm. by apply filter_In in Hrm as [_ Hkept].
Qed.

Lemma leaveRoom_idempotent_witness :
  leaveRoom steady "carol" 1 sample_world
    = Resolved tt (mkWorld sample_db 1) /\
  exists w1 w2,
    leaveRoom steady "bob" 1 sample_world = Resolved tt w1 /\
    leaveRoom steady "bob" 1 w1 = Resolved tt w2 /\
    db w2 = db w1.
Proof.
  split.
  - apply (leaveRoom_idempotent steady "carol" 1 sample_world eq_refl).
    intros (rm & [<-|[<-|[]]] & Hu & _); discriminate.
  - apply (leaveRoom_idempotent steady "bob" 1 sample_world eq_refl).
    reflexivity.
Defined.

(** X5. For a user who is not a member, on a store whose ids lie below
    their sequences, an accepted [joinRoom] followed by an accepted
    [leaveRoom] restores the membership rows; only the sequence has
    moved on. *)
Theorem joinRoom_then_leaveRoom E userId roomId w :
  rejects E (issued w) = false ->
  rejects E (S (issued w)) = false ->
  pk_below_seq (db w) ->
  ~ is_member (db w) userId roomId ->
  exists w',
    (await _ <- joinRoom E userId roomId; leaveRoom E userId roomId) w
      = Resolved tt w' /\
    roomMembers (db w') = roomMembers (db w) /\
    roomMembers_seq (db w') = roomMembers_seq (db w) + 1.
Proof.
  intros Hacc1 Hacc2 Hpk Hnot. unfold andThen.
  rewrite (joinRoom_inserts _ _ _ _ Hacc1 Hpk).
  rewrite leaveRoom_accepted; [|done].
  eexists. split; [reflexivity|]. split; [|done]. simpl.
  rewrite List.filter_app, filter_all.
  - simpl. rewrite String.eqb_refl, Z.eqb_refl. simpl. apply app_nil_r.
  - intros rm Hrm. apply kept_by_leave. intros [Hu Hr].
    apply Hnot. by exists rm.
Qed.

Lemma joinRoom_then_leaveRoom_witness :
  exists w',
    (await _ <- joinRoom steady "carol" 1; leaveRoom steady "carol" 1)
      sample_world = Resolved tt w' /\
    roomMembers (db w') = roomMembers sample_db /\
    roomMembers_seq (db w') = roomMembers_seq sample_db + 1.
Proof.
  apply (joinRoom_then_leaveRoom steady "carol" 1 sample_world);
    try reflexivity.
  - apply sample_db_consistent.
  - intros (rm & [<-|[<-|[]]] & Hu & _); discriminate.
Defined.

(** ** The rooms of a user and the members of a room *)

Lemma rooms_of_id d id :
  NoDup (map r_id (rooms d)) ->
  map r_id (List.filter (fun r => id =? r_id r) (rooms d))
  = if existsb (fun r => r_id r =? id) (rooms d) then [id] else [].
Proof.
  induction (rooms d) as [|r l IH]; [done|].
  simpl. intros Hnd. apply NoDup_cons in Hnd as [Hr Hnd].
  rewrite (Z.eqb_sym id (r_id r)).
  destruct (Z.eqb_spec (r_id r) id) as [Hid|Hid]; simpl.
  - f_equal; [done|]. rewrite filter_none; [done|].
    intros r' Hr'. apply Z.eqb_neq. intros Heq. apply Hr.
    rewrite Hid, Heq. by apply list_elem_of_In, in_map.
  - by apply IH.
Qed.

(** X6. An accepted [getUserRooms] lists a room exactly when the room
    exists and the user has a membership row for it.  With distinct room
    ids it lists a room once for each membership row the user has for
    it: a pair that is there twice shows its room twice.  The query has
    no ORDER BY, so the list is described up to its order. *)
Theorem getUserRooms_lists E userId w :
  rejects E (issued w) = false ->
  exists mine,
    getUserRooms E userId w = Resolved mine (mkWorld (db w) (S (issued w))) /\
    (forall r, In r mine <->
               In r (rooms (db w)) /\ is_member (db w) userId (r_id r)) /\
    (NoDup (map r_id (rooms (db w))) ->
     Permutation (map r_id mine)
       (List.filter (fun id => existsb (fun r => r_id r =? id) (rooms (db w)))
          (map rm_roomId
             (List.filter (fun rm => String.eqb (rm_userId rm) userId)
                          (roomMembers (db w)))))).
Proof.
  intros Hacc. unfold getUserRooms. rewrite (query_accepted _ _ _ Hacc).
  eexists. split; [reflexivity|]. split.
  - intros r. apply in_getUserRooms_rows.
  - intros Hnd. induction (roomMembers (db w)) as [|rm l IH]; [done|].
    simpl. rewrite map_app, IH.
    destruct (String.eqb (rm_userId rm) userId); simpl; [|done].
    rewrite (rooms_of_id _ _ Hnd).
    by destruct (existsb _ (rooms (db w))).
Qed.

Lemma getUserRooms_lists_witness :
  exists mine,
    getUserRooms steady "alice" sample_world
      = Resolved mine (mkWorld sample_db 1) /\
    (forall r, In r mine <->
               In r (rooms sample_db) /\ is_member sample_db "alice" (r_id r)) /\
    Permutation (map r_id mine)
      (List.filter (fun id => existsb (fun r => r_id r =? id) (rooms sample_db))
         (map rm_roomId
            (List.filter (fun rm => String.eqb (rm_userId rm) "alice")
                         (roomMembers sample_db)))).
Proof.
  destruct (getUserRooms_lists steady "alice" sample_world eq_refl)
    as (mine & Hget & Hin & Hperm).
  exists mine. split; [exact Hget|]. split; [exact Hin|].
  apply Hperm. compute_done.
Defined.

(** X7. An accepted [getRoomMembers] returns the user rows of the
    room's membership rows, one per row, dropping members that have no
    user row: there are at most as many as [getRooms] counts for the
    room, and exactly as many when every member of the room has a user
    row. *)
Theorem getRoomMembers_lists E roomId w :
  rejects E (issued w) = false ->
  exists members,
    getRoomMembers E roomId w
      = Resolved members (mkWorld (db w) (S (issued w))) /\
    (forall u, In u members <->
               exists rm, In rm (roomMembers (db w)) /\
                          rm_roomId rm = roomId /\
                          users (db w) !! rm_userId rm = Some u) /\
    Z.of_nat (length members) <= member_count (db w) roomId /\
    ((forall rm, In rm (roomMembers (db w)) -> rm_roomId rm = roomId ->
                 is_Some (users (db w) !! rm_userId rm)) ->
     Z.of_nat (length members) = member_count (db w) roomId).
Proof.
  intros Hacc. unfold getRoomMembers. rewrite (query_accepted _ _ _ Hacc).
  eexists. split; [reflexivity|]. split; [|split].
  - intros u. rewrite in_flat_map. split.
    + intros (rm & Hrm & Hu).
      destruct (Z.eqb_spec (rm_roomId rm) roomId) as [Hr|]; [|done].
      destruct (users (db w) !! rm_userId rm) as [u'|] eqn:Hlook; [|done].
      destruct Hu as [<-|[]]. by exists rm.
    + intros (rm & Hrm & Hr & Hu). exists rm. split; [done|].
      rewrite Hr, Z.eqb_refl, Hu. by left.
  - unfold member_count. apply inj_le.
    induction (roomMembers (db w)) as [|rm l IH]; [done|].
    simpl. rewrite length_app.
    destruct (rm_roomId rm =? roomId); [|done].
    destruct (users (db w) !! rm_userId rm); simpl; lia.
  - intros Hall. unfold member_count. f_equal.
    induction (roomMembers (db w)) as [|rm l IH]; [done|].
    simpl. rewrite length_app, IH.
    + destruct (Z.eqb_spec (rm_roomId rm) roomId) as [Hr|]; [|done].
      destruct (Hall rm (or_introl eq_refl) Hr) as [u ->]. done.
    + intros rm' Hrm'. apply Hall. by right.
Qed.

Lemma getRoomMembers_lists_witness :
  exists members,
    getRoomMembers steady 1 sample_world
      = Resolved members (mkWorld sample_db 1) /\
    (forall u, In u members <->
               exists rm, In rm (roomMembers sample_db) /\
                          rm_roomId rm = 1 /\
                          users sample_db !! rm_userId rm = Some u) /\
    Z.of_nat (length members) <= member_count sample_db 1 /\
    ((forall rm, In rm (roomMembers sample_db) -> rm_roomId rm = 1 ->
                 is_Some (users sample_db !! rm_userId rm)) ->
     Z.of_nat (length members) = member_count sample_db 1).
Proof.
  apply (getRoomMembers_lists steady 1 sample_world). reflexivity.
Defined.

(** ** Pages of messages *)

Lemma getMessages_accepted E roomId limit offset w :
  rejects E (issued w) = false ->
  0 <= limit -> 0 <= offset ->
  getMessages E roomId (Some limit) (Some offset) w =
    Resolved
      (rev (map withUser
              (firstn (Z.to_nat limit)
                 (skipn (Z.to_nat offset)
                    (orderByDesc E (room_rows (db w) roomId))))))
      (mkWorld (db w) (S (issued w))).
Proof.
  intros Hacc Hl Ho. unfold getMessages, andThen.
  rewrite (query_accepted _ _ _ Hacc). unfold limit_offset. simpl default.
  replace (limit <? 0) with false by (symmetry; apply Z.ltb_ge; lia).
  replace (offset <? 0) with false by (symmetry; apply Z.ltb_ge; lia).
  reflexivity.
Qed.

Lemma firstn_plus {A} (a b : nat) (l : list A) :
  firstn (a + b) l = firstn a l ++ firstn b (skipn a l).
Proof.
  revert l. induction a as [|a IH]; intros l; [done|].
  destruct l as [|x l]; simpl; [by destruct b|]. by rewrite IH.
Qed.

Lemma skipn_plus {A} (a b : nat) (l : list A) :
  skipn (a + b) l = skipn b (skipn a l).
Proof.
  revert l. induction a as [|a IH]; intros l; [done|].
  destruct l as [|x l]; simpl; [by destruct b|]. by rewrite IH.
Qed.

(** With distinct creation times there is one way to order rows newest
    first: two orderings of the same rows are the same list. *)
Lemma newest_first_unique (l1 l2 : list (Message * User)) :
  StronglySorted newer_first l1 ->
  StronglySorted newer_first l2 ->
  Permutation l1 l2 ->
  NoDup (map (fun row => m_createdAt row.1) l1) ->
  l1 = l2.
Proof.
  revert l2. induction l1 as [|x l1 IH]; intros l2 H1 H2 Hp Hnd.
  - by apply Permutation_nil_l in Hp.
  - destruct l2 as [|y l2]; [by apply Permutation_nil_r in Hp|].
    apply StronglySorted_inv in H1 as [H1 Hx].
    apply StronglySorted_inv in H2 as [H2 Hy].
    apply NoDup_cons in Hnd as [Hfresh Hnd].
    assert (Hxy : x = y).
    { assert (Hxin : x ∈ y :: l2) by (rewrite <- Hp; left).
      assert (Hyin : y ∈ x :: l1) by (rewrite Hp; left).
      apply elem_of_cons in Hxin as [Hxin|Hxin]; [done|].
      apply elem_of_cons in Hyin as [Hyin|Hyin]; [done|].
      rewrite Forall_forall in Hx, Hy.
      pose proof (Hx y Hyin) as Hle1. pose proof (Hy x Hxin) as Hle2.
      unfold newer_first in Hle1, Hle2.
      exfalso. apply Hfresh.
      replace (m_createdAt x.1) with (m_createdAt y.1) by lia.
      apply (list_elem_of_fmap_2 (fun row => m_createdAt row.1)), Hyin. }
    subst y. f_equal. apply IH; [done|done| |done].
    by apply Permutation_cons_inv in Hp.
Qed.

Lemma orderByDesc_unique E1 E2 l :
  NoDup (map (fun row => m_createdAt row.1) l) ->
  orderByDesc E1 l = orderByDesc E2 l.
Proof.
  intros Hnd. apply newest_first_unique.
  - apply orderByDesc_strongly.
  - apply orderByDesc_strongly.
  - by rewrite !orderByDesc_perm.
  - by rewrite orderByDesc_perm.
Qed.

(** X8. Pages fit together when the room's messages have distinct
    creation times: for counts that are not negative, the page of
    [a + b] messages at offset [o] is the page of [b] messages at offset
    [o + a] (the older ones) followed by the page of [a] messages at
    offset [o], however the database orders each of the three queries. *)
Theorem getMessages_pages_concat E1 E2 E3 roomId a b o w :
  rejects E1 (issued w) = false ->
  rejects E2 (issued w) = false ->
  rejects E3 (issued w) = false ->
  0 <= a -> 0 <= b -> 0 <= o ->
  NoDup (map (fun row => m_createdAt row.1) (room_rows (db w) roomId)) ->
  exists newer older,
    getMessages E1 roomId (Some a) (Some o) w
      = Resolved newer (mkWorld (db w) (S (issued w))) /\
    getMessages E2 roomId (Some b) (Some (o + a)) w
      = Resolved older (mkWorld (db w) (S (issued w))) /\
    getMessages E3 roomId (Some (a + b)) (Some o) w
      = Resolved (older ++ newer) (mkWorld (db w) (S (issued w))).
Proof.
  intros Hacc1 Hacc2 Hacc3 Ha Hb Ho Hnd.
  rewrite !getMessages_accepted by (done || lia).
  rewrite (orderByDesc_unique E1 E3 _ Hnd), (orderByDesc_unique E2 E3 _ Hnd).
  eexists _, _. split; [reflexivity|]. split; [reflexivity|].
  f_equal. rewrite <- rev_app_distr, <- map_app. do 2 f_equal.
  rewrite !Z2Nat.inj_add by lia. by rewrite firstn_plus, skipn_plus.
Qed.

Lemma getMessages_pages_concat_witness :
  exists newer older,
    getMessages steady 1 (Some 1) (Some 0) sample_world
      = Resolved newer (mkWorld sample_db 1) /\
    getMessages second_lost 1 (Some 1) (Some (0 + 1)) sample_world
      = Resolved older (mkWorld sample_db 1) /\
    getMessages steady 1 (Some (1 + 1)) (Some 0) sample_world
      = Resolved (older ++ newer) (mkWorld sample_db 1).
Proof.
  apply (getMessages_pages_concat steady second_lost steady 1 1 1 0
           sample_world);
    [reflexivity|reflexivity|reflexivity|lia|lia|lia|].
  compute_done.
Defined.

(** X9. The size of a page: with [n] messages of the room that have an
    author's user row, an accepted [getMessages] with counts that are
    not negative returns [min limit (n - offset)] messages; none for
    limit 0 or an offset of [n] or more. *)
Theorem getMessages_page_size E roomId limit offset w :
  rejects E (issued w) = false ->
  0 <= limit -> 0 <= offset ->
  exists res,
    getMessages E roomId (Some limit) (Some offset) w
      = Resolved res (mkWorld (db w) (S (issued w))) /\
    length res = Nat.min (Z.to_nat limit)
                         (length (room_rows (db w) roomId) - Z.to_nat offset) /\
    (limit = 0 -> res = []) /\
    (Z.of_nat (length (room_rows (db w) roomId)) <= offset -> res = []).
Proof.
  intros Hacc Hl Ho. rewrite getMessages_accepted by done.
  eexists. split; [reflexivity|].
  assert (Hlen : length (rev (map withUser
                   (firstn (Z.to_nat limit)
                      (skipn (Z.to_nat offset)
                         (orderByDesc E (room_rows (db w) roomId))))))
                 = Nat.min (Z.to_nat limit)
                     (length (room_rows (db w) roomId) - Z.to_nat offset)).
  { rewrite length_rev, length_map, length_firstn, length_skipn.
    by rewrite (Permutation_length (orderByDesc_perm E _)). }
  split; [done|]. split.
  - intros ->. apply length_zero_iff_nil. rewrite Hlen. done.
  - intros Hbig. apply length_zero_iff_nil. rewrite Hlen. lia.
Qed.

Lemma getMessages_page_size_witness :
  exists res,
    getMessages steady 1 (Some 1) (Some 0) sample_world
      = Resolved res (mkWorld sample_db 1) /\
    length res = Nat.min (Z.to_nat 1)
                         (length (room_rows sample_db 1) - Z.to_nat 0) /\
    (1 = 0 -> res = []) /\
    (Z.of_nat (length (room_rows sample_db 1)) <= 0 -> res = []).
Proof.
  apply (getMessages_page_size steady 1 1 0 sample_world); done.
Defined.

(** ** Rooms do not see each other's messages *)

(** X10. A message created in one room leaves the listings of every
    other room as they were: after an accepted [createMessage] into room
    R', [getMessages] and [getLatestMessages] of a room R <> R' resolve
    with the lists they resolved with before. *)
Theorem createMessage_other_room E message roomId w :
  rejects E (issued w) = false ->
  pk_below_seq (db w) ->
  im_roomId message <> roomId ->
  exists row w1,
    createMessage E message w = Resolved row w1 /\
    (forall k limit offset res w',
       getMessages E roomId limit offset (mkWorld (db w) k) = Resolved res w' ->
       getMessages E roomId limit offset (mkWorld (db w1) k)
         = Resolved res (mkWorld (db w1) (S k))) /\
    (forall k since res w',
       getLatestMessages E roomId since (mkWorld (db w) k) = Resolved res w' ->
       getLatestMessages E roomId since (mkWorld (db w1) k)
         = Resolved res (mkWorld (db w1) (S k))).
Proof.
  intros Hacc Hpk Hroom.
  rewrite (createMessage_inserts _ _ _ Hacc Hpk).
  set (row := mkMessage _ _ _ _ _). set (w1 := mkWorld _ _).
  assert (Hjoin : messages_innerJoin_users (db w1)
                  = messages_innerJoin_users (db w)
                    ++ match users (db w) !! m_userId row with
                       | Some u => [(row, u)]
                       | None => []
                       end).
  { unfold messages_innerJoin_users. simpl.
    by rewrite flat_map_app; simpl; rewrite app_nil_r. }
  assert (Hnew : forall P : Message * User -> bool,
            (forall u, P (row, u) = true -> m_roomId row = roomId) ->
            List.filter P (messages_innerJoin_users (db w1))
            = List.filter P (messages_innerJoin_users (db w))).
  { intros P HP. rewrite Hjoin, List.filter_app.
    destruct (users (db w) !! m_userId row) as [u|]; simpl;
      [|by rewrite app_nil_r].
    destruct (P (row, u)) eqn:HPu; [|by rewrite app_nil_r].
    by apply HP in HPu. }
  exists row, w1. split; [done|]. split.
  - intros k limit offset res w'.
    unfold getMessages, andThen, statement, query. simpl.
    destruct (rejects E k); [done|].
    rewrite Hnew by (simpl; intros; lia).
    destruct (limit_offset _ _ _); [|done]. by intros [= <- _].
  - intros k since res w'.
    unfold getLatestMessages, andThen, statement, query. simpl.
    destruct (rejects E k); [done|].
    destruct since as [[t|]|]; simpl; [|done|].
    + rewrite Hnew by (simpl; intros; lia). by intros [= <- _].
    + rewrite Hnew by (simpl; intros; lia). by intros [= <- _].
Qed.

Lemma createMessage_other_room_witness :
  exists row w1,
    createMessage steady (mkInsertMessage "elsewhere" "bob" 2) sample_world
      = Resolved row w1 /\
    (forall k limit offset res w',
       getMessages steady 1 limit offset (mkWorld sample_db k) = Resolved res w' ->
       getMessages steady 1 limit offset (mkWorld (db w1) k)
         = Resolved res (mkWorld (db w1) (S k))) /\
    (forall k since res w',
       getLatestMessages steady 1 since (mkWorld sample_db k) = Resolved res w' ->
       getLatestMessages steady 1 since (mkWorld (db w1) k)
         = Resolved res (mkWorld (db w1) (S k))).
Proof.
  apply (createMessage_other_room steady (mkInsertMessage "elsewhere" "bob" 2)
           1 sample_world eq_refl).
  - apply sample_db_consistent.
  - done.
Defined.

(** X11. A poll comes back empty exactly when nothing is newer: an
    accepted [getLatestMessages roomId t] resolves with the empty list if
    and only if no message of the room whose author has a user row was
    created after [t]. *)
Theorem getLatestMessages_empty E roomId t w :
  rejects E (issued w) = false ->
  exists res,
    getLatestMessages E roomId (Some (ValidDate t)) w
      = Resolved res (mkWorld (db w) (S (issued w))) /\
    (res = [] <->
     forall m, In m (messages (db w)) -> m_roomId m = roomId ->
               is_Some (users (db w) !! m_userId m) -> m_createdAt m <= t).
Proof.
  intros Hacc. unfold getLatestMessages, andThen.
  rewrite (query_accepted _ _ _ Hacc). simpl.
  eexists. split; [reflexivity|].
  set (Q := List.filter _ (messages_innerJoin_users (db w))).
  assert (Hnil : rev (map withUser (firstn 50 (orderByDesc E Q))) = [] <-> Q = []).
  { rewrite <- !length_zero_iff_nil.
    rewrite length_rev, length_map, length_firstn.
    rewrite (Permutation_length (orderByDesc_perm E Q)). lia. }
  change (Z.to_nat 50) with 50%nat. rewrite Hnil. split.
  - intros HQ m Hm Hroom [u Hu].
    destruct (Z.le_gt_cases (m_createdAt m) t) as [|Hnew]; [done|].
    assert (Hin : In (m, u) Q).
    { apply filter_In. split; [by apply in_messages_innerJoin_users|].
      simpl. apply andb_true_intro. split; lia. }
    rewrite HQ in Hin. done.
  - intros Hold. apply filter_none. intros [m u] Hin.
    apply in_messages_innerJoin_users in Hin as [Hm Hu]. simpl.
    destruct (Z.eqb_spec (m_roomId m) roomId) as [Hroom|]; [|done].
    simpl. apply Z.ltb_ge. apply Hold; [done..|by exists u].
Qed.

Lemma getLatestMessages_empty_witness :
  exists res,
    getLatestMessages steady 1 (Some (ValidDate 20)) sample_world
      = Resolved res (mkWorld sample_db 1) /\
    (res = [] <->
     forall m, In m (messages sample_db) -> m_roomId m = 1 ->
               is_Some (users sample_db !! m_userId m) -> m_createdAt m <= 20).
Proof.
  apply (getLatestMessages_empty steady 1 20 sample_world). reflexivity.
Defined.

(** ** What no method takes away *)

Lemma never_shrinks_refl d : never_shrinks d d.
Proof. repeat split; [by exists []; rewrite app_nil_r..|done]. Qed.

Lemma never_shrinks_same d d' :
  rooms d' = rooms d -> messages d' = messages d -> users d' = users d ->
  never_shrinks d d'.
Proof.
  intros Hr Hm Hu. repeat split.
  - exists []. by rewrite app_nil_r.
  - exists []. by rewrite app_nil_r.
  - by rewrite Hu.
Qed.

Lemma never_shrinks_trans d1 d2 d3 :
  never_shrinks d1 d2 -> never_shrinks d2 d3 -> never_shrinks d1 d3.
Proof.
  intros ([r1 Hr1] & [m1 Hm1] & Hu1) ([r2 Hr2] & [m2 Hm2] & Hu2).
  repeat split.
  - exists (r1 ++ r2). by rewrite Hr2, Hr1, app_assoc.
  - exists (m1 ++ m2). by rewrite Hm2, Hm1, app_assoc.
  - intros id Hid. by apply Hu2, Hu1.
Qed.

Lemma statement_relates {A} E (sem : Z -> DB -> option A * DB)
    (R : DB -> DB -> Prop) w :
  (forall d, R d d) -> (forall t d, R d (sem t d).2) ->
  match statement E sem w with
  | Resolved _ w' | Rejected _ w' => R (db w) (db w')
  end.
Proof.
  intros Hrefl Hsem. unfold statement.
  destruct (rejects E (issued w)); [apply Hrefl|].
  specialize (Hsem (now E (issued w)) (db w)).
  by destruct (sem _ _) as [[a|] d].
Qed.

Lemma insert_rooms_never_shrinks room t d :
  never_shrinks d (insert_rooms room t d).2.
Proof.
  unfold insert_rooms. destruct (existsb _ _); simpl.
  - by apply never_shrinks_same.
  - repeat split; simpl; [by eexists|by exists []; rewrite app_nil_r|done].
Qed.

Lemma insert_roomMembers_never_shrinks userId roomId t d :
  never_shrinks d (insert_roomMembers_onConflictDoNothing userId roomId t d).2.
Proof.
  unfold insert_roomMembers_onConflictDoNothing.
  destruct (existsb _ _); by apply never_shrinks_same.
Qed.

Lemma delete_roomMembers_never_shrinks userId roomId t d :
  never_shrinks d (delete_roomMembers userId roomId t d).2.
Proof. by apply never_shrinks_same. Qed.

Lemma insert_messages_never_shrinks message t d :
  never_shrinks d (insert_messages message t d).2.
Proof.
  unfold insert_messages. destruct (existsb _ _); simpl.
  - by apply never_shrinks_same.
  - repeat split; simpl; [by exists []; rewrite app_nil_r|by eexists|done].
Qed.

Lemma upsert_users_never_shrinks userData uuid today t d :
  never_shrinks d (upsert_users userData uuid today t d).2.
Proof.
  unfold upsert_users. destruct (email_taken _ _ _); simpl.
  - apply never_shrinks_refl.
  - repeat split; simpl; [by exists []; rewrite app_nil_r..|].
    intros id Hid. rewrite lookup_insert_is_Some.
    destruct (decide (default uuid (uu_id userData) = id)); [by left|by right].
Qed.

(** X12. No method of the storage layer deletes or rewrites a room or
    a message, or removes a user: whatever a call to [createRoom],
    [joinRoom], [leaveRoom], [createMessage] or [upsertUser] comes to,
    resolved or rejected, the rooms and the messages of before are a
    prefix of those after, and every user id that had a row still has
    one. *)
Theorem storage_never_shrinks E w :
  (forall room, match createRoom E room w with
                | Resolved _ w' | Rejected _ w' =>
                    never_shrinks (db w) (db w') end) /\
  (forall u r, match joinRoom E u r w with
               | Resolved _ w' | Rejected _ w' =>
                   never_shrinks (db w) (db w') end) /\
  (forall u r, match leaveRoom E u r w with
               | Resolved _ w' | Rejected _ w' =>
                   never_shrinks (db w) (db w') end) /\
  (forall message, match createMessage E message w with
                   | Resolved _ w' | Rejected _ w' =>
                       never_shrinks (db w) (db w') end) /\
  (forall userData uuid today,
     match upsertUser E userData uuid today w with
     | Resolved _ w' | Rejected _ w' => never_shrinks (db w) (db w') end).
Proof.
  repeat split.
  - intros room. unfold createRoom, andThen.
    pose proof (statement_relates E (insert_rooms room) never_shrinks w
                  never_shrinks_refl (insert_rooms_never_shrinks room)) as H1.
    destruct (statement E (insert_rooms room) w) as [newRoom w1|e w1]; [|done].
    pose proof (statement_relates E
                  (insert_roomMembers_onConflictDoNothing (ir_createdBy room)
                     (r_id newRoom)) never_shrinks w1 never_shrinks_refl
                  (insert_roomMembers_never_shrinks _ _)) as H2.
    unfold joinRoom.
    destruct (statement E _ w1) as [[] w2|e w2];
      by apply (never_shrinks_trans _ (db w1)).
  - intros u r. apply statement_relates;
      [apply never_shrinks_refl|apply insert_roomMembers_never_shrinks].
  - intros u r. apply statement_relates;
      [apply never_shrinks_refl|apply delete_roomMembers_never_shrinks].
  - intros message. apply statement_relates;
      [apply never_shrinks_refl|apply insert_messages_never_shrinks].
  - intros userData uuid today. apply statement_relates;
      [apply never_shrinks_refl|apply upsert_users_never_shrinks].
Qed.

Lemma upsert_users_consistent userData uuid today t d :
  consistent d -> consistent (upsert_users userData uuid today t d).2.
Proof.
  intros Hc. unfold upsert_users. by destruct (email_taken _ _ _).
Qed.

(** X13. The primary keys hold through every writing method: on a store
    where the ids of rooms, messages and memberships are distinct and
    not above their sequences, they are so again after [createRoom],
    [joinRoom], [leaveRoom], [createMessage] or [upsertUser], resolved
    or rejected. *)
Theorem storage_primary_keys E w :
  consistent (db w) ->
  (forall room, match createRoom E room w with
                | Resolved _ w' | Rejected _ w' => consistent (db w') end) /\
  (forall u r, match joinRoom E u r w with
               | Resolved _ w' | Rejected _ w' => consistent (db w') end) /\
  (forall u r, match leaveRoom E u r w with
               | Resolved _ w' | Rejected _ w' => consistent (db w') end) /\
  (forall message, match createMessage E message w with
                   | Resolved _ w' | Rejected _ w' => consistent (db w') end) /\
  (forall userData uuid today,
     match upsertUser E userData uuid today w with
     | Resolved _ w' | Rejected _ w' => consistent (db w') end).
Proof.
  intros Hc.
  destruct (storage_keeps_consistent E w Hc) as (H1 & H2 & H3 & H4).
  repeat split; [done..|].
  intros userData uuid today. apply statement_preserves; [|done].
  apply upsert_users_consistent.
Qed.

Lemma storage_primary_keys_witness :
  match createRoom steady (mkInsertRoom "random" None "bob") sample_world with
  | Resolved _ w' | Rejected _ w' => consistent (db w')
  end /\
  match createMessage steady (mkInsertMessage "hello" "bob" 1) sample_world with
  | Resolved _ w' | Rejected _ w' => consistent (db w')
  end.
Proof.
  destruct (storage_primary_keys steady sample_world sample_db_consistent)
    as (Hroom & _ & _ & Hmessage & _).
  split; [apply Hroom|apply Hmessage].
Defined.

(** ** Authors keep their rows *)

Lemma authors_exist_step d d' :
  authors_exist d ->
  (forall m, In m (messages d') ->
             In m (messages d) \/ is_Some (users d !! m_userId m)) ->
  (forall id, is_Some (users d !! id) -> is_Some (users d' !! id)) ->
  authors_exist d'.
Proof.
  intros Ha Hm Hu m Hin. apply Hu.
  destruct (Hm m Hin) as [Hold|Hnew]; [by apply Ha|done].
Qed.

Lemma statement_keeps_authors {A} E (sem : Z -> DB -> option A * DB) w :
  authors_exist (db w) ->
  (forall t d, authors_exist d -> authors_exist (sem t d).2) ->
  match statement E sem w with
  | Resolved _ w' | Rejected _ w' => authors_exist (db w')
  end.
Proof. intros Ha Hsem. by apply statement_preserves. Qed.

Lemma insert_messages_keeps_authors message t d :
  is_Some (users d !! im_userId message) ->
  authors_exist d -> authors_exist (insert_messages message t d).2.
Proof.
  intros Hauthor Ha. unfold insert_messages.
  destruct (existsb _ _); simpl; [done|].
  apply (authors_exist_step d); [done| |done].
  simpl. intros m Hin. apply in_app_or in Hin as [Hold|[<-|[]]]; [by left|].
  by right.
Qed.

Lemma insert_rooms_keeps_authors room t d :
  authors_exist d -> authors_exist (insert_rooms room t d).2.
Proof. intros Hd. unfold insert_rooms. by destruct (existsb _ _). Qed.

Lemma insert_roomMembers_keeps_authors userId roomId t d :
  authors_exist d ->
  authors_exist (insert_roomMembers_onConflictDoNothing userId roomId t d).2.
Proof.
  intros Hd. unfold insert_roomMembers_onConflictDoNothing.
  by destruct (existsb _ _).
Qed.

Lemma getMessages_keeps_db E roomId limit offset w :
  match getMessages E roomId limit offset w with
  | Resolved _ w' | Rejected _ w' => db w' = db w
  end.
Proof.
  unfold getMessages, andThen, statement, query.
  destruct (rejects E (issued w)); [done|].
  by destruct (limit_offset _ _ _).
Qed.

(** X14. Referential integrity of messages is kept where the author is
    known: on a store in which every message's author has a user row,
    this is so again after [createMessage] for an author with a user row
    and after the send-message route for a session user with a user row,
    whatever they come to; and after [createRoom], [joinRoom],
    [leaveRoom] and [upsertUser] in any case. *)
Theorem authors_exist_kept E w :
  authors_exist (db w) ->
  (forall message,
     is_Some (users (db w) !! im_userId message) ->
     match createMessage E message w with
     | Resolved _ w' | Rejected _ w' => authors_exist (db w') end) /\
  (forall req,
     is_Some (users (db w) !! claims_sub req) ->
     match post_messages E req w with
     | Resolved _ w' | Rejected _ w' => authors_exist (db w') end) /\
  (forall room, match createRoom E room w with
                | Resolved _ w' | Rejected _ w' => authors_exist (db w') end) /\
  (forall u r, match joinRoom E u r w with
               | Resolved _ w' | Rejected _ w' => authors_exist (db w') end) /\
  (forall u r, match leaveRoom E u r w with
               | Resolved _ w' | Rejected _ w' => authors_exist (db w') end) /\
  (forall userData uuid today,
     match upsertUser E userData uuid today w with
     | Resolved _ w' | Rejected _ w' => authors_exist (db w') end).
Proof.
  intros Ha.
  assert (Hcreate : forall message,
            is_Some (users (db w) !! im_userId message) ->
            match createMessage E message w with
            | Resolved _ w' | Rejected _ w' => authors_exist (db w') end).
  { intros message Hauthor. unfold createMessage, statement.
    destruct (rejects E (issued w)); [done|].
    pose proof (insert_messages_keeps_authors message (now E (issued w))
                  (db w) Hauthor Ha) as H.
    by destruct (insert_messages _ _ _) as [[row|] d]. }
  split; [done|]. split; [|repeat split].
  - intros req Hauthor. unfold post_messages, tryCatch.
    destruct (parseInt (params_roomId req)) as [|roomId]; [done|].
    unfold andThen at 1, insertMessageSchema_parse.
    destruct (body_content req) as [c|]; [|done]. simpl.
    unfold andThen at 1.
    specialize (Hcreate (mkInsertMessage c (claims_sub req) roomId) Hauthor).
    destruct (createMessage E _ w) as [row w1|e w1]; [|done].
    unfold andThen.
    pose proof (getMessages_keeps_db E roomId (Some 1) None w1) as Hdb.
    destruct (getMessages E roomId (Some 1) None w1) as [res w2|e w2];
      simpl; by rewrite Hdb.
  - intros room. unfold createRoom, andThen.
    pose proof (statement_keeps_authors E (insert_rooms room) w Ha
                  (insert_rooms_keeps_authors room)) as H1.
    destruct (statement E (insert_rooms room) w) as [newRoom w1|e w1]; [|done].
    pose proof (statement_keeps_authors E
                  (insert_roomMembers_onConflictDoNothing (ir_createdBy room)
                     (r_id newRoom)) w1 H1
                  (insert_roomMembers_keeps_authors _ _)) as H2.
    unfold joinRoom. by destruct (statement E _ w1) as [[] w2|e w2].
  - intros u r. apply statement_keeps_authors; [done|].
    apply insert_roomMembers_keeps_authors.
  - intros u r. by apply statement_keeps_authors.
  - intros userData uuid today. apply statement_keeps_authors; [done|].
    intros t d Hd. unfold upsert_users.
    destruct (email_taken _ _ _); simpl; [done|].
    apply (authors_exist_step d); [done|by left|].
    simpl. intros id Hid. rewrite lookup_insert_is_Some.
    destruct (decide (default uuid (uu_id userData) = id)); [by left|by right].
Qed.

Lemma sample_db_authors : authors_exist sample_db.
Proof. intros m [<-|[<-|[]]]; vm_compute; eauto. Qed.

Lemma authors_exist_kept_witness :
  match createMessage steady (mkInsertMessage "hello" "bob" 1) sample_world with
  | Resolved _ w' | Rejected _ w' => authors_exist (db w')
  end /\
  match post_messages steady
          (mkRequest "alice" "1" None None None (Some "hello")) sample_world with
  | Resolved _ w' | Rejected _ w' => authors_exist (db w')
  end.
Proof.
  destruct (authors_exist_kept steady sample_world sample_db_authors)
    as (Hcreate & Hpost & _).
  split.
  - apply (Hcreate (mkInsertMessage "hello" "bob" 1)). vm_compute. eauto.
  - apply (Hpost (mkRequest "alice" "1" None None None (Some "hello"))).
    vm_compute. eauto.
Defined.

(** ** What the routes answer *)

Lemma getRoomById_accepted E id w :
  rejects E (issued w) = false ->
  getRoomById E id w =
    Resolved (head (List.filter (fun r => r_id r =? id) (rooms (db w))))
             (mkWorld (db w) (S (issued w))).
Proof.
  intros Hacc. unfold getRoomById, andThen.
  by rewrite (query_accepted _ _ _ Hacc).
Qed.

(** X15. Joining through the route: for a numeric room id, when no
    room has that id the answer is 404 and nothing is written; when a
    room has it (and the store's ids lie below their sequences, the
    statements are accepted) the answer is 200 and the session user is a
    member of the room afterwards. *)
Theorem post_join_answers E req w roomId :
  parseInt (params_roomId req) = Num roomId ->
  rejects E (issued w) = false ->
  ((forall r, In r (rooms (db w)) -> r_id r <> roomId) ->
   post_join E req w =
     Resolved (mkResponse 404 (JMessage "Room not found"))
              (mkWorld (db w) (S (issued w)))) /\
  ((exists r, In r (rooms (db w)) /\ r_id r = roomId) ->
   rejects E (S (issued w)) = false ->
   pk_below_seq (db w) ->
   exists w',
     post_join E req w
       = Resolved (json (JMessage "Joined room successfully")) w' /\
     is_member (db w') (claims_sub req) roomId /\
     rooms (db w') = rooms (db w)).
Proof.
  intros Hroom Hacc. split.
  - intros Hnone. unfold post_join, tryCatch, andThen.
    rewrite Hroom, (getRoomById_accepted _ _ _ Hacc).
    replace (head (List.filter (fun r => r_id r =? roomId) (rooms (db w))))
      with (@None Room); [done|].
    symmetry. apply head_filter_None. intros r Hr. apply Z.eqb_neq.
    by apply Hnone.
  - intros (r & Hr & Hid) Hacc2 Hpk. unfold post_join, tryCatch, andThen.
    rewrite Hroom, (getRoomById_accepted _ _ _ Hacc).
    destruct (head (List.filter (fun r => r_id r =? roomId) (rooms (db w))))
      as [r'|] eqn:Hhead.
    + rewrite (joinRoom_inserts E (claims_sub req) roomId
                 (mkWorld (db w) (S (issued w))) Hacc2 Hpk).
      eexists. split; [reflexivity|]. split; [|done].
      eexists. split; [simpl; apply in_or_app; right; by left|done].
    + rewrite head_filter_None in Hhead. specialize (Hhead r Hr).
      simpl in Hhead. lia.
Qed.

Lemma post_join_answers_witness :
  post_join steady (mkRequest "carol" "7" None None None None) sample_world
    = Resolved (mkResponse 404 (JMessage "Room not found"))
               (mkWorld sample_db 1) /\
  exists w',
    post_join steady (mkRequest "carol" "1" None None None None) sample_world
      = Resolved (json (JMessage "Joined room successfully")) w' /\
    is_member (db w') "carol" 1 /\
    rooms (db w') = rooms sample_db.
Proof.
  split.
  - apply (post_join_answers steady
             (mkRequest "carol" "7" None None None None) sample_world 7
             eq_refl eq_refl).
    intros r [<-|[]]. done.
  - apply (post_join_answers steady
             (mkRequest "carol" "1" None None None None) sample_world 1
             eq_refl eq_refl).
    + exists general. split; [by left|done].
    + reflexivity.
    + apply sample_db_consistent.
Defined.

(** X16. Leaving through the route asks nothing of the room: for a
    numeric room id and an accepted statement the answer is 200, whether
    or not the room exists or the user was a member, and the user is not
    a member afterwards. *)
Theorem post_leave_answers E req w roomId :
  parseInt (params_roomId req) = Num roomId ->
  rejects E (issued w) = false ->
  exists w',
    post_leave E req w
      = Resolved (json (JMessage "Left room successfully")) w' /\
    ~ is_member (db w') (claims_sub req) roomId /\
    rooms (db w') = rooms (db w).
Proof.
  intros Hroom Hacc. unfold post_leave, tryCatch, andThen.
  rewrite Hroom, (leaveRoom_accepted _ _ _ _ Hacc).
  eexists. split; [reflexivity|]. split; [|done].
  simpl. intros (rm & Hin & Hu & Hr).
  apply filter_In in Hin as [_ Hkept]. apply kept_by_leave in Hkept.
  by apply Hkept.
Qed.

Lemma post_leave_answers_witness :
  exists w',
    post_leave steady (mkRequest "carol" "7" None None None None) sample_world
      = Resolved (json (JMessage "Left room successfully")) w' /\
    ~ is_member (db w') "carol" 7 /\
    rooms (db w') = rooms sample_db.
Proof.
  apply (post_leave_answers steady
           (mkRequest "carol" "7" None None None None) sample_world 7);
    reflexivity.
Defined.

Lemma post_messages_after_insert E req w roomId c :
  parseInt (params_roomId req) = Num roomId ->
  body_content req = Some c ->
  rejects E (issued w) = false ->
  pk_below_seq (db w) ->
  let created := mkMessage (messages_seq (db w) + 1) c (claims_sub req)
                           roomId (now E (issued w)) in
  post_messages E req w =
    match getMessages E roomId (Some 1) None
            (mkWorld
               (mkDB (users (db w)) (rooms (db w)) (rooms_seq (db w))
                     (messages (db w) ++ [created]) (messages_seq (db w) + 1)
                     (roomMembers (db w)) (roomMembers_seq (db w)))
               (S (issued w))) with
    | Resolved res w2 =>
        Resolved (mkResponse 201
                    match head res with
                    | Some first => JMessageWithUser first
                    | None => JMessageRow created
                    end) w2
    | Rejected _ w2 =>
        Resolved (mkResponse 500 (JMessage "Failed to send message")) w2
    end.
Proof.
  intros Hroom Hbody Hacc Hpk created.
  unfold post_messages, tryCatch, andThen. rewrite Hroom, Hbody.
  unfold insertMessageSchema_parse, resolve.
  rewrite (createMessage_inserts E (mkInsertMessage c (claims_sub req) roomId)
             w Hacc Hpk).
  simpl. fold created. by destruct (getMessages _ _ _ _ _).
Qed.

(** X17. Sending a message: a body whose content is not a string is
    answered with status 500, not 400, before any statement is sent.
    With a content, once the insert is accepted the message is in the
    store whatever follows, for any numeric room id, whether or not such
    a room exists or the sender is a member; if the re-fetch is then
    rejected the answer is 500 although the message has been stored. *)
Theorem post_messages_edges E req w roomId :
  parseInt (params_roomId req) = Num roomId ->
  (body_content req = None ->
   post_messages E req w =
     Resolved (mkResponse 500 (JMessage "Failed to send message")) w) /\
  (forall c,
     body_content req = Some c ->
     rejects E (issued w) = false ->
     pk_below_seq (db w) ->
     let created := mkMessage (messages_seq (db w) + 1) c (claims_sub req)
                              roomId (now E (issued w)) in
     (exists response w',
        post_messages E req w = Resolved response w' /\
        messages (db w') = messages (db w) ++ [created]) /\
     (rejects E (S (issued w)) = true ->
      exists w',
        post_messages E req w =
          Resolved (mkResponse 500 (JMessage "Failed to send message")) w' /\
        messages (db w') = messages (db w) ++ [created])).
Proof.
  intros Hroom. split.
  - intros Hbody. unfold post_messages, tryCatch, andThen.
    by rewrite Hroom, Hbody.
  - intros c Hbody Hacc Hpk created.
    rewrite (post_messages_after_insert _ _ _ _ _ Hroom Hbody Hacc Hpk).
    fold created. set (w1 := mkWorld _ _). split.
    + pose proof (getMessages_keeps_db E roomId (Some 1) None w1) as Hdb.
      destruct (getMessages E roomId (Some 1) None w1) as [res w2|e w2];
        eexists _, _; (split; [reflexivity|]); by rewrite Hdb.
    + intros Hrej. unfold getMessages, andThen. cbv zeta.
      rewrite statement_rejected; [|done]. by eexists.
Qed.

Lemma post_messages_edges_witness :
  post_messages steady (mkRequest "alice" "1" None None None None) sample_world
    = Resolved (mkResponse 500 (JMessage "Failed to send message")) sample_world /\
  exists response w',
    post_messages steady (mkRequest "carol" "7" None None None (Some "hello"))
      sample_world = Resolved response w' /\
    messages (db w')
      = messages sample_db ++ [mkMessage 3 "hello" "carol" 7 1000].
Proof.
  split.
  - by apply (post_messages_edges steady
                (mkRequest "alice" "1" None None None None) sample_world 1).
  - apply (post_messages_edges steady
             (mkRequest "carol" "7" None None None (Some "hello"))
             sample_world 7 eq_refl); try reflexivity.
    apply sample_db_consistent.
Defined.

(** X18. In the message listing a [since] value takes over: when the
    query has a non-empty [since], the answer does not depend on [limit]
    and [offset]. *)
Theorem get_messages_since_ignores_paging E req limit offset w :
  since_param E req <> None ->
  get_messages E
    (mkRequest (claims_sub req) (params_roomId req) limit offset
               (query_since req) (body_content req)) w
  = get_messages E req w.
Proof.
  intros Hsince. unfold get_messages, since_param in *. simpl.
  destruct (parseInt (params_roomId req)); [done|].
  by destruct (query_since req) as [[|c s]|].
Qed.

Lemma get_messages_since_ignores_paging_witness :
  get_messages steady
    (mkRequest "alice" "1" (Some "1") (Some "1") (Some "10") None) sample_world
  = get_messages steady
      (mkRequest "alice" "1" None None (Some "10") None) sample_world.
Proof.
  apply (get_messages_since_ignores_paging steady
           (mkRequest "alice" "1" None None (Some "10") None)
           (Some "1") (Some "1") sample_world).
  discriminate.
Defined.

(** ** Room ids in the path *)

Fixpoint uint_digits (d : Decimal.uint) : list Z :=
  match d with
  | Decimal.Nil => []
  | Decimal.D0 d => 0 :: uint_digits d
  | Decimal.D1 d => 1 :: uint_digits d
  | Decimal.D2 d => 2 :: uint_digits d
  | Decimal.D3 d => 3 :: uint_digits d
  | Decimal.D4 d => 4 :: uint_digits d
  | Decimal.D5 d => 5 :: uint_digits d
  | Decimal.D6 d => 6 :: uint_digits d
  | Decimal.D7 d => 7 :: uint_digits d
  | Decimal.D8 d => 8 :: uint_digits d
  | Decimal.D9 d => 9 :: uint_digits d
  end.

Lemma radixDigits_uint d :
  radixDigits 10 (NilEmpty.string_of_uint d) = uint_digits d.
Proof. induction d; simpl; [done|by f_equal..]. Qed.

Lemma trimStart_uint d :
  trimStart (NilEmpty.string_of_uint d) = NilEmpty.string_of_uint d.
Proof. by destruct d. Qed.

Lemma stripSign_uint d :
  stripSign (NilEmpty.string_of_uint d) = (false, NilEmpty.string_of_uint d).
Proof. by destruct d. Qed.

Lemma stripPrefix_uint d :
  stripPrefix (NilEmpty.string_of_uint d) = (10, NilEmpty.string_of_uint d).
Proof. destruct d as [|d| | | | | | | | |]; try done. by destruct d. Qed.

Lemma fold_digits_acc d acc :
  fold_left (fun a x => a * 10 + x) (uint_digits d) (Z.pos acc)
  = Z.pos (Pos.of_uint_acc d acc).
Proof.
  revert acc. induction d; intros acc; simpl; [done|rewrite <- IHd; f_equal; lia..].
Qed.

Lemma fold_digits d :
  fold_left (fun a x => a * 10 + x) (uint_digits d) 0 = Z.of_N (Pos.of_uint d).
Proof.
  induction d; simpl; [done|done|apply fold_digits_acc..].
Qed.

Lemma parseInt_uint d :
  d <> Decimal.Nil ->
  parseInt (NilEmpty.string_of_uint d) = Num (Z.of_N (Pos.of_uint d)) /\
  parseInt (String "-" (NilEmpty.string_of_uint d))
    = Num (- Z.of_N (Pos.of_uint d)).
Proof.
  intros Hd.
  assert (Hne : uint_digits d <> []) by (by destruct d).
  split.
  - unfold parseInt. rewrite trimStart_uint, stripSign_uint, stripPrefix_uint.
    rewrite radixDigits_uint, <- fold_digits.
    by destruct (uint_digits d).
  - unfold parseInt.
    replace (stripSign (trimStart (String "-" (NilEmpty.string_of_uint d))))
      with (true, NilEmpty.string_of_uint d) by done.
    rewrite stripPrefix_uint, radixDigits_uint, <- fold_digits.
    by destruct (uint_digits d).
Qed.

(** X20. The number the client writes is the number the routes read:
    for every integer [n] of magnitude below 2^53, the integers a
    JavaScript number holds exactly and prints in plain decimal,
    [parseInt] of its decimal text is [n].  So a room id put into a
    request path reaches the storage layer unchanged, and a [limit] or
    [offset] written as a number is used as that number, except 0, which
    gives way to the default. *)
Theorem parseInt_numberToString n :
  - 2 ^ 53 < n < 2 ^ 53 ->
  parseInt (numberToString n) = Num n /\
  (forall req : Request,
     params_roomId req = numberToString n ->
     isNaN (parseInt (params_roomId req)) = false) /\
  (forall req : Request,
     query_limit req = Some (numberToString n) ->
     limit_param req = if n =? 0 then 50 else n) /\
  (forall req : Request,
     query_offset req = Some (numberToString n) ->
     offset_param req = n).
Proof.
  intros _.
  assert (Hparse : parseInt (numberToString n) = Num n).
  { assert (Hzero : forall p, NilZero.string_of_uint (Pos.to_uint p)
                               = NilEmpty.string_of_uint (Pos.to_uint p)).
    { intros p. pose proof (Unsigned.to_uint_nonnil p).
      by destruct (Pos.to_uint p). }
    unfold numberToString. destruct n as [|p|p]; [done| |].
    - change (parseInt (NilZero.string_of_uint (Pos.to_uint p)) = Num (Z.pos p)).
      rewrite Hzero.
      destruct (parseInt_uint (Pos.to_uint p) (Unsigned.to_uint_nonnil p))
        as [-> _].
      by rewrite Unsigned.of_to.
    - change (parseInt (String "-" (NilZero.string_of_uint (Pos.to_uint p)))
              = Num (Z.neg p)).
      rewrite Hzero.
      destruct (parseInt_uint (Pos.to_uint p) (Unsigned.to_uint_nonnil p))
        as [_ ->].
      by rewrite Unsigned.of_to. }
  split; [done|]. repeat split.
  - intros req ->. by rewrite Hparse.
  - intros req Hq. unfold limit_param. rewrite Hq. simpl. by rewrite Hparse.
  - intros req Hq. unfold offset_param. rewrite Hq. simpl. rewrite Hparse.
    simpl. by destruct (Z.eqb_spec n 0).
Qed.

Lemma parseInt_numberToString_witness :
  - 2 ^ 53 < 12 < 2 ^ 53 /\
  isNaN (parseInt "12") = false /\
  offset_param (mkRequest "alice" "12" None (Some "12") None None) = 12.
Proof.
  destruct (parseInt_numberToString 12 ltac:(lia))
    as (_ & Hroom & _ & Hoffset).
  split; [lia|]. split.
  - apply (Hroom (mkRequest "alice" "12" None (Some "12") None None)).
    reflexivity.
  - apply (Hoffset (mkRequest "alice" "12" None (Some "12") None None)).
    reflexivity.
Defined.

(** ** Users *)

Lemma email_taken_spec d id email :
  email_taken d id email = true <-> email_clash d id email.
Proof.
  unfold email_taken, email_clash. destruct email as [e|].
  - rewrite existsb_exists. split.
    + intros ([k u] & Hin & Hrow). simpl in Hrow.
      apply andb_prop in Hrow as [Hk He].
      apply negb_true_iff, String.eqb_neq in Hk.
      apply bool_decide_eq_true in He.
      apply list_elem_of_In, elem_of_map_to_list in Hin.
      by exists k, u, e.
    + intros (k & u & e' & [= <-] & Hlook & Hk & He).
      exists (k, u). split.
      * by apply list_elem_of_In, elem_of_map_to_list.
      * simpl. apply andb_true_intro. split.
        -- by apply negb_true_iff, String.eqb_neq.
        -- by apply bool_decide_eq_true.
  - split; [done|]. by intros (k & u & e & [=] & _).
Qed.

Lemma email_taken_free d id email :
  ~ email_clash d id email -> email_taken d id email = false.
Proof.
  intros Hfree. destruct (email_taken d id email) eqn:Ht; [|done].
  by apply email_taken_spec in Ht.
Qed.

Lemma upsert_row_email userData uuid today t d :
  let id := default uuid (uu_id userData) in
  u_email
    match users d !! id with
    | None =>
        mkUser id
               (default None (uu_email userData))
               (default None (uu_firstName userData))
               (default None (uu_lastName userData))
               (default None (uu_profileImageUrl userData))
               (default (Some t) (uu_createdAt userData))
               (default (Some t) (uu_updatedAt userData))
    | Some old =>
        mkUser (default (u_id old) (uu_id userData))
               (default (u_email old) (uu_email userData))
               (default (u_firstName old) (uu_firstName userData))
               (default (u_lastName old) (uu_lastName userData))
               (default (u_profileImageUrl old) (uu_profileImageUrl userData))
               (default (u_createdAt old) (uu_createdAt userData))
               (Some today)
    end
  = email_after d userData id.
Proof. unfold email_after. simpl. by destruct (users d !! _). Qed.

Lemma getUser_accepted E id w :
  rejects E (issued w) = false ->
  getUser E id w = Resolved (users (db w) !! id) (mkWorld (db w) (S (issued w))).
Proof.
  intros Hacc. unfold getUser, andThen. rewrite (query_accepted _ _ _ Hacc).
  by destruct (users (db w) !! id).
Qed.

(** X21. Upsert and read back: when the resulting email is held by no
    other row and the statements are accepted, [upsertUser] resolves with
    a row that [getUser] of its id then returns; the row carries every
    profile field that was supplied; the rows of all other users, and
    the rooms, messages and memberships, are as before. *)
Theorem upsertUser_then_getUser E userData uuid today w :
  let id := default uuid (uu_id userData) in
  rejects E (issued w) = false ->
  rejects E (S (issued w)) = false ->
  ~ email_clash (db w) id (email_after (db w) userData id) ->
  exists row w1 w2,
    upsertUser E userData uuid today w = Resolved row w1 /\
    getUser E id w1 = Resolved (Some row) w2 /\
    (forall v, uu_email userData = Some v -> u_email row = v) /\
    (forall v, uu_firstName userData = Some v -> u_firstName row = v) /\
    (forall v, uu_lastName userData = Some v -> u_lastName row = v) /\
    (forall v, uu_profileImageUrl userData = Some v ->
               u_profileImageUrl row = v) /\
    (forall k, k <> id -> users (db w1) !! k = users (db w) !! k) /\
    rooms (db w1) = rooms (db w) /\
    messages (db w1) = messages (db w) /\
    roomMembers (db w1) = roomMembers (db w).
Proof.
  intros id Hacc1 Hacc2 Hfree. unfold upsertUser.
  rewrite (statement_accepted _ _ _ Hacc1). unfold upsert_users. fold id.
  rewrite (upsert_row_email userData uuid today).
  fold id. rewrite (email_taken_free _ _ _ Hfree).
  eexists _, _, _. split; [reflexivity|]. split.
  - rewrite getUser_accepted by done. simpl. by rewrite lookup_insert_eq.
  - repeat split; simpl; try done.
    + intros v Hv. rewrite Hv. by destruct (users (db w) !! id).
    + intros v Hv. rewrite Hv. by destruct (users (db w) !! id).
    + intros v Hv. rewrite Hv. by destruct (users (db w) !! id).
    + intros v Hv. rewrite Hv. by destruct (users (db w) !! id).
    + intros k Hk. by rewrite lookup_insert_ne.
Qed.

Lemma upsertUser_then_getUser_witness :
  let userData :=
    mkUpsertUser (Some "carol") (Some (Some "carol@example.org"))
                 (Some (Some "Carol")) None None None None in
  exists row w1 w2,
    upsertUser steady userData "uuid-1" 77 sample_world = Resolved row w1 /\
    getUser steady "carol" w1 = Resolved (Some row) w2 /\
    (forall v, uu_email userData = Some v -> u_email row = v) /\
    (forall v, uu_firstName userData = Some v -> u_firstName row = v) /\
    (forall v, uu_lastName userData = Some v -> u_lastName row = v) /\
    (forall v, uu_profileImageUrl userData = Some v ->
               u_profileImageUrl row = v) /\
    (forall k, k <> "carol" -> users (db w1) !! k = users sample_db !! k) /\
    rooms (db w1) = rooms sample_db /\
    messages (db w1) = messages sample_db /\
    roomMembers (db w1) = roomMembers sample_db.
Proof.
  apply (upsertUser_then_getUser steady
           (mkUpsertUser (Some "carol") (Some (Some "carol@example.org"))
                         (Some (Some "Carol")) None None None None)
           "uuid-1" 77 sample_world); try reflexivity.
  intros Hclash. apply email_taken_spec in Hclash. vm_compute in Hclash.
  discriminate.
Defined.

(** X22. What an upsert does to the columns left undefined, when it
    is accepted and the resulting email is held by no other row: for an
    id that has no row, they are null and both timestamps are the
    database clock; for an id that has a row, they keep what the row had,
    [createdAt] included, and [updatedAt] becomes the server's current
    time even when one is supplied. *)
Theorem upsertUser_columns E userData uuid today w :
  let id := default uuid (uu_id userData) in
  rejects E (issued w) = false ->
  ~ email_clash (db w) id (email_after (db w) userData id) ->
  exists row w1,
    upsertUser E userData uuid today w = Resolved row w1 /\
    (users (db w) !! id = None ->
     u_id row = id /\
     (uu_email userData = None -> u_email row = None) /\
     (uu_firstName userData = None -> u_firstName row = None) /\
     (uu_lastName userData = None -> u_lastName row = None) /\
     (uu_profileImageUrl userData = None -> u_profileImageUrl row = None) /\
     (uu_createdAt userData = None ->
      u_createdAt row = Some (now E (issued w))) /\
     (uu_updatedAt userData = None ->
      u_updatedAt row = Some (now E (issued w)))) /\
    (forall old,
       users (db w) !! id = Some old ->
       (uu_email userData = None -> u_email row = u_email old) /\
       (uu_firstName userData = None -> u_firstName row = u_firstName old) /\
       (uu_lastName userData = None -> u_lastName row = u_lastName old) /\
       (uu_profileImageUrl userData = None ->
        u_profileImageUrl row = u_profileImageUrl old) /\
       (uu_createdAt userData = None -> u_createdAt row = u_createdAt old) /\
       u_updatedAt row = Some today).
Proof.
  intros id Hacc Hfree. unfold upsertUser.
  rewrite (statement_accepted _ _ _ Hacc). unfold upsert_users. fold id.
  rewrite (upsert_row_email userData uuid today).
  fold id. rewrite (email_taken_free _ _ _ Hfree).
  eexists _, _. split; [reflexivity|]. split.
  - intros ->. simpl. repeat split; by intros ->.
  - intros old ->. simpl. repeat split; by intros ->.
Qed.

Lemma upsertUser_columns_witness :
  let userData :=
    mkUpsertUser (Some "alice") None (Some (Some "Alicia")) None None None None in
  exists row w1,
    upsertUser steady userData "uuid-1" 77 sample_world = Resolved row w1 /\
    (users sample_db !! "alice" = None ->
     u_id row = "alice" /\
     (uu_email userData = None -> u_email row = None) /\
     (uu_firstName userData = None -> u_firstName row = None) /\
     (uu_lastName userData = None -> u_lastName row = None) /\
     (uu_profileImageUrl userData = None -> u_profileImageUrl row = None) /\
     (uu_createdAt userData = None -> u_createdAt row = Some 1000) /\
     (uu_updatedAt userData = None -> u_updatedAt row = Some 1000)) /\
    (forall old,
       users sample_db !! "alice" = Some old ->
       (uu_email userData = None -> u_email row = u_email old) /\
       (uu_firstName userData = None -> u_firstName row = u_firstName old) /\
       (uu_lastName userData = None -> u_lastName row = u_lastName old) /\
       (uu_profileImageUrl userData = None ->
        u_profileImageUrl row = u_profileImageUrl old) /\
       (uu_createdAt userData = None -> u_createdAt row = u_createdAt old) /\
       u_updatedAt row = Some 77).
Proof.
  apply (upsertUser_columns steady
           (mkUpsertUser (Some "alice") None (Some (Some "Alicia"))
                         None None None None)
           "uuid-1" 77 sample_world eq_refl).
  intros Hclash. apply email_taken_spec in Hclash. vm_compute in Hclash.
  discriminate.
Defined.

(** X23. Emails stay unique: an upsert whose resulting email is held by
    another row is rejected and leaves the store as it is; and on a
    store where no two users share an email, this is so again after
    [upsertUser], whatever it comes to. *)
Theorem upsertUser_email_unique E userData uuid today w :
  let id := default uuid (uu_id userData) in
  (rejects E (issued w) = false ->
   email_clash (db w) id (email_after (db w) userData id) ->
   upsertUser E userData uuid today w
     = Rejected DatabaseError (mkWorld (db w) (S (issued w)))) /\
  (emails_unique (db w) ->
   match upsertUser E userData uuid today w with
   | Resolved _ w' | Rejected _ w' => emails_unique (db w')
   end).
Proof.
  intros id. split.
  - intros Hacc Hclash. unfold upsertUser.
    rewrite (statement_accepted _ _ _ Hacc). unfold upsert_users. fold id.
    rewrite (upsert_row_email userData uuid today). fold id.
    apply email_taken_spec in Hclash. by rewrite Hclash.
  - intros Huniq. unfold upsertUser, statement.
    destruct (rejects E (issued w)); [done|].
    unfold upsert_users. fold id.
    rewrite (upsert_row_email userData uuid today). fold id.
    destruct (email_taken (db w) id (email_after (db w) userData id)) eqn:Htaken;
      [done|].
    assert (Hfree : ~ email_clash (db w) id (email_after (db w) userData id)).
    { intros Hclash. apply email_taken_spec in Hclash. congruence. }
    pose proof (upsert_row_email userData uuid today (now E (issued w)) (db w))
      as Hrow.
    cbv zeta in Hrow. fold id in Hrow.
    set (row := match users (db w) !! id with
                | Some old => _ | None => _ end) in *.
    unfold emails_unique. cbn [db users].
    intros k1 k2 u1 u2 e.
    destruct (decide (id = k1)) as [Hk1|Hk1], (decide (id = k2)) as [Hk2|Hk2].
    + congruence.
    + rewrite <- Hk1, lookup_insert_eq, lookup_insert_ne by done.
      intros [= <-] H2 He1 He2. exfalso. apply Hfree.
      exists k2, u2, e. split; [by rewrite <- Hrow|].
      split; [exact H2|]. split; [congruence|exact He2].
    + rewrite <- Hk2, lookup_insert_ne, lookup_insert_eq by done.
      intros H1 [= <-] He1 He2. exfalso. apply Hfree.
      exists k1, u1, e. split; [by rewrite <- Hrow|].
      split; [exact H1|]. split; [congruence|exact He1].
    + rewrite !lookup_insert_ne by done. apply Huniq.
Qed.

Lemma upsertUser_email_unique_witness :
  upsertUser steady
    (mkUpsertUser (Some "carol") (Some (Some "alice@example.org"))
                  None None None None None) "uuid-1" 77 sample_world
  = Rejected DatabaseError (mkWorld sample_db 1).
Proof.
  pose proof (upsertUser_email_unique steady
                (mkUpsertUser (Some "carol") (Some (Some "alice@example.org"))
                              None None None None None)
                "uuid-1" 77 sample_world) as H.
  cbv zeta in H. destruct H as [Hreject _].
  apply Hreject; [reflexivity|].
  exists "alice", alice, "alice@example.org".
  split; [vm_compute; reflexivity|].
  split; [vm_compute; reflexivity|].
  split; [discriminate|reflexivity].
Defined.

(** ** Creating a room through the route *)

(** X24. Creating a room through the route: a body whose name is not a
    string the schema accepts is answered with status 500 before any
    statement is sent.  With an acceptable name (and a description that
    is a string, null or absent), on a store whose ids lie below their
    sequences and with both statements accepted, the answer is 201 with
    the new room, whose creator is the session user whatever the body
    names as creator, and the session user is a member of it. *)
Theorem post_rooms_answers E nameOk req w :
  ((forall name, b_name (rr_body req) = BString name -> nameOk name = false) ->
   post_rooms E nameOk req w =
     Resolved (mkRoomResponse 500 (RMessage "Failed to create room")) w) /\
  (forall name,
     b_name (rr_body req) = BString name ->
     nameOk name = true ->
     b_description (rr_body req) <> BOther ->
     pk_below_seq (db w) ->
     rejects E (issued w) = false ->
     rejects E (S (issued w)) = false ->
     exists room w',
       post_rooms E nameOk req w = Resolved (mkRoomResponse 201 (RRoom room)) w' /\
       r_name room = name /\
       r_createdBy room = rr_sub req /\
       In room (rooms (db w')) /\
       is_member (db w') (rr_sub req) (r_id room)).
Proof.
  split.
  - intros Hbad. unfold post_rooms, tryCatch, andThen, insertRoomSchema_parse.
    simpl. destruct (b_name (rr_body req)) as [| |name|] eqn:Hname; try done.
    by rewrite (Hbad name eq_refl).
  - intros name Hname Hok Hdesc Hpk Hacc1 Hacc2.
    unfold post_rooms, tryCatch, andThen at 1 2, insertRoomSchema_parse.
    simpl. rewrite Hname, Hok.
    destruct (b_description (rr_body req)) as [| |description|];
      [| | |done]; unfold resolve at 1;
      rewrite (createRoom_resolves _ _ _ Hpk Hacc1 Hacc2);
      (eexists _, _; split; [reflexivity|]; simpl;
       split; [done|]; split; [done|];
       split; [apply in_or_app; right; by left|];
       eexists; split; [apply in_or_app; right; by left|done]).
Qed.

Lemma post_rooms_answers_witness :
  post_rooms steady (fun name => (String.length name <=? 100)%nat)
    (mkRoomRequest "bob" (mkRoomBody BAbsent BNull BAbsent)) sample_world
  = Resolved (mkRoomResponse 500 (RMessage "Failed to create room"))
             sample_world /\
  exists room w',
    post_rooms steady (fun name => (String.length name <=? 100)%nat)
      (mkRoomRequest "bob"
         (mkRoomBody (BString "random") BAbsent (BString "alice")))
      sample_world
    = Resolved (mkRoomResponse 201 (RRoom room)) w' /\
    r_name room = "random" /\
    r_createdBy room = "bob" /\
    In room (rooms (db w')) /\
    is_member (db w') "bob" (r_id room).
Proof.
  split.
  - pose proof (post_rooms_answers steady
                  (fun name => (String.length name <=? 100)%nat)
                  (mkRoomRequest "bob" (mkRoomBody BAbsent BNull BAbsent))
                  sample_world) as [Hbad _].
    apply Hbad. intros name. discriminate.
  - pose proof (post_rooms_answers steady
                  (fun name => (String.length name <=? 100)%nat)
                  (mkRoomRequest "bob"
                     (mkRoomBody (BString "random") BAbsent (BString "alice")))
                  sample_world) as [_ Hgood].
    apply (Hgood "random"); try reflexivity.
    + discriminate.
    + apply sample_db_consistent.
Defined.

(** ** The sidebar's list of rooms to join *)

Lemma getRooms_accepted E w :
  rejects E (issued w) = false ->
  NoDup (map r_id (rooms (db w))) ->
  getRooms E w = Resolved (map (details_of (db w)) (rooms (db w)))
                          (mkWorld (db w) (S (issued w))).
Proof.
  intros Hacc Hnd. unfold getRooms, andThen.
  rewrite (statement_accepted _ _ _ Hacc). unfold query, resolve. f_equal.
  unfold select_roomsWithDetails, leftJoin_roomMembers, rooms_leftJoin_users.
  change (flat_map _ (groupBy ?rows)) with (aggregate (groupBy rows)).
  change (flat_map _ ?l) with (flat_map (member_rows (db w)) l).
  rewrite (aggregate_groupBy (db w) _ Hnd), map_map.
  apply map_ext. intros r. unfold details_of. simpl.
  by destruct (users (db w) !! r_createdBy r).
Qed.

(** X25. What the sidebar offers for joining: computed from the answers
    of [getUserRooms] for the user and of [getRooms], on a store whose
    rooms have distinct ids, [availableRooms] holds exactly the rooms of
    the store for which the user has no membership row, each with its
    details. *)
Theorem availableRooms_not_joined E userId w :
  rejects E (issued w) = false ->
  rejects E (S (issued w)) = false ->
  NoDup (map r_id (rooms (db w))) ->
  exists mine w1 allRooms w2,
    getUserRooms E userId w = Resolved mine w1 /\
    getRooms E w1 = Resolved allRooms w2 /\
    forall x,
      In x (availableRooms mine allRooms) <->
      In (rd_room x) (rooms (db w)) /\
      x = details_of (db w) (rd_room x) /\
      ~ is_member (db w) userId (r_id (rd_room x)).
Proof.
  intros Hacc1 Hacc2 Hnd.
  unfold getUserRooms at 1. rewrite (query_accepted _ _ _ Hacc1).
  set (mine := flat_map _ (roomMembers (db w))).
  exists mine, (mkWorld (db w) (S (issued w))).
  rewrite (getRooms_accepted E (mkWorld (db w) (S (issued w))) Hacc2 Hnd).
  eexists _, _. split; [reflexivity|]. split; [reflexivity|].
  assert (Hmine : forall id,
            id ∈ userRoomIds mine <->
            exists r, In r (rooms (db w)) /\ is_member (db w) userId (r_id r)
                      /\ r_id r = id).
  { intros id. unfold userRoomIds.
    rewrite elem_of_list_to_set, list_elem_of_In, in_map_iff. split.
    - intros (r & Hid & Hr). apply in_getUserRooms_rows in Hr as [Hr Hm].
      by exists r.
    - intros (r & Hr & Hm & Hid). exists r. split; [done|].
      by apply in_getUserRooms_rows. }
  intros x. unfold availableRooms. simpl db.
  rewrite filter_In, in_map_iff, negb_true_iff, bool_decide_eq_false, Hmine.
  split.
  - intros [(r & <- & Hr) Hnot]. simpl. split; [done|]. split; [done|].
    intros Hm. apply Hnot. by exists r.
  - intros (Hr & Hx & Hnot). split.
    + exists (rd_room x). by split.
    + intros (r & Hr' & Hm & Hid). apply Hnot. by rewrite <- Hid.
Qed.

Lemma availableRooms_not_joined_witness :
  exists mine w1 allRooms w2,
    getUserRooms steady "carol" sample_world = Resolved mine w1 /\
    getRooms steady w1 = Resolved allRooms w2 /\
    forall x,
      In x (availableRooms mine allRooms) <->
      In (rd_room x) (rooms sample_db) /\
      x = details_of sample_db (rd_room x) /\
      ~ is_member sample_db "carol" (r_id (rd_room x)).
Proof.
  apply (availableRooms_not_joined steady "carol" sample_world);
    try reflexivity.
  apply sample_db_consistent.
Defined.

(** ** Colours and names on the client *)

Lemma toInt32_range z : - 2 ^ 31 <= toInt32 z < 2 ^ 31.
Proof.
  unfold toInt32.
  pose proof (Z.mod_pos_bound (z + 2 ^ 31) (2 ^ 32) ltac:(lia)). lia.
Qed.

Lemma code_range c : 0 <= code c <= 255.
Proof.
  unfold code. pose proof (N_ascii_bounded c). lia.
Qed.

Lemma hashStep_bound hash c :
  Z.abs (hashStep hash c) <= Z.abs hash + (2 ^ 31 + 255).
Proof.
  unfold hashStep, shiftLeft.
  pose proof (toInt32_range (Z.shiftl (toInt32 hash) (Z.land 5 31))).
  pose proof (code_range c). lia.
Qed.

Lemma fold_hashStep_bound l hash :
  Z.abs (fold_left hashStep l hash)
  <= Z.abs hash + Z.of_nat (length l) * (2 ^ 31 + 255).
Proof.
  revert hash. induction l as [|c l IH]; intros hash; [simpl; lia|].
  cbn [fold_left length]. etrans; [apply IH|].
  pose proof (hashStep_bound hash c). lia.
Qed.

Lemma length_list_ascii_of_string s :
  length (list_ascii_of_string s) = String.length s.
Proof. induction s as [|c s IH]; simpl; [done|by rewrite IH]. Qed.

(** X26. [getColorForUser] always yields one of the nine colour
    classes, never undefined, for every user id; and the hash it computes
    stays within [length * (2^31 + 255)] in absolute value (ids are read
    as texts of characters with codes below 256), so that for ids of
    realistic length every number in the loop is an integer that
    JavaScript represents exactly. *)
Theorem getColorForUser_defined userId :
  (exists colour, getColorForUser userId = Some colour /\ In colour colors) /\
  Z.abs (userHash userId)
  <= Z.of_nat (String.length userId) * (2 ^ 31 + 255).
Proof.
  split.
  - unfold getColorForUser.
    pose proof (Z.rem_bound_pos (Z.abs (userHash userId))
                  (Z.of_nat (length colors)) (Z.abs_nonneg _) ltac:(simpl; lia))
      as Hrem.
    destruct (colors !! Z.to_nat (Z.rem (Z.abs (userHash userId))
                                        (Z.of_nat (length colors))))
      as [colour|] eqn:Hlook.
    + exists colour. split; [done|].
      apply list_elem_of_In, list_elem_of_lookup. eauto.
    + apply lookup_ge_None in Hlook. lia.
  - unfold userHash. rewrite <- length_list_ascii_of_string.
    pose proof (fold_hashStep_bound (list_ascii_of_string userId) 0). lia.
Qed.

Lemma trimStart_length s : (String.length (trimStart s) <= String.length s)%nat.
Proof.
  induction s as [|c s IH]; simpl; [done|].
  destruct (isStrWhiteSpaceChar c); simpl; lia.
Qed.

Lemma trimStart_fixed_append s t :
  s <> "" -> trimStart s = s -> trimStart (s ++ t) = (s ++ t)%string.
Proof.
  destruct s as [|c s]; [done|]. intros _. simpl.
  destruct (isStrWhiteSpaceChar c); [|done].
  intros H. pose proof (trimStart_length s) as Hlen.
  rewrite H in Hlen. simpl in Hlen. lia.
Qed.

Lemma trimEnd_append_kept s t :
  trimEnd t <> "" -> trimEnd (s ++ t) = (s ++ trimEnd t)%string.
Proof.
  intros Ht. induction s as [|c s IH]; [done|].
  change (String c s ++ t)%string with (String c (s ++ t)).
  change (String c s ++ trimEnd t)%string with (String c (s ++ trimEnd t)).
  cbn [trimEnd]. rewrite IH.
  destruct (s ++ trimEnd t)%string eqn:Heq; [|done].
  destruct s; [|done]. done.
Qed.

Lemma trimEnd_append_blank s t :
  trimEnd t = "" -> trimEnd (s ++ t) = trimEnd s.
Proof.
  intros Ht. induction s as [|c s IH]; [done|].
  change (String c s ++ t)%string with (String c (s ++ t)).
  cbn [trimEnd]. by rewrite IH.
Qed.

Lemma trimEnd_nonblank_head c rest :
  isStrWhiteSpaceChar c = false -> trimEnd (String c rest) <> "".
Proof.
  intros Hc. cbn [trimEnd]. destruct (trimEnd rest); [by rewrite Hc|done].
Qed.

Lemma trimStart_blank s : trimEnd (trimStart s) = "" -> trimStart s = "".
Proof.
  induction s as [|a s IH]; [done|]. cbn [trimStart].
  destruct (isStrWhiteSpaceChar a) eqn:Ha; [exact IH|].
  intros H. by apply trimEnd_nonblank_head in H.
Qed.

Lemma trimStart_blank_append s t :
  trimStart s = "" -> trimStart (s ++ t) = trimStart t.
Proof.
  induction s as [|a s IH]; [done|].
  change (String a s ++ t)%string with (String a (s ++ t)).
  cbn [trimStart]. destruct (isStrWhiteSpaceChar a); [exact IH|done].
Qed.

(** X27. The display name: a first or last name that has no white
    space at its ends is shown as it is when it is the only one, and the
    two are shown with one space between them when both are there; the
    stray space of the template is trimmed away.  A first name of white
    space alone still counts as a name: the display name is then empty,
    the email is not used. *)
Theorem getDisplayName_names user :
  (forall first,
     u_firstName user = Some first -> first <> "" ->
     trimStart first = first -> trimEnd first = first ->
     (truthy (u_lastName user) = false -> getDisplayName user = first) /\
     (forall last,
        u_lastName user = Some last -> last <> "" -> trimEnd last = last ->
        getDisplayName user = (first ++ " " ++ last)%string)) /\
  (forall last,
     truthy (u_firstName user) = false ->
     u_lastName user = Some last -> last <> "" ->
     trimStart last = last -> trimEnd last = last ->
     getDisplayName user = last) /\
  (forall first,
     u_firstName user = Some first -> first <> "" -> trim first = "" ->
     truthy (u_lastName user) = false ->
     getDisplayName user = "").
Proof.
  unfold getDisplayName. split; [|split].
  - intros first Hfirst Hne Hstart Hend.
    rewrite Hfirst. destruct first as [|c first]; [done|]. simpl truthy.
    simpl orb. cbn [orString]. split.
    + intros Hlast.
      replace (orString (u_lastName user) "") with "".
      2: { destruct (u_lastName user) as [[|]|]; done. }
      unfold trim. rewrite trimStart_fixed_append by done.
      rewrite trimEnd_append_blank by done. done.
    + intros last Hlast Hlne Hlend. rewrite Hlast.
      destruct last as [|d last]; [done|]. cbn [orString].
      unfold trim. rewrite trimStart_fixed_append by done.
      rewrite trimEnd_append_kept.
      * f_equal. change (" " ++ String d last)%string
          with (String " " (String d last)).
        change (trimEnd (String " " (String d last)))
          with (match trimEnd (String d last) with
                | EmptyString => EmptyString
                | kept => String " " kept
                end).
        rewrite Hlend. done.
      * change (" " ++ String d last)%string
          with (String " " (String d last)).
        change (trimEnd (String " " (String d last)))
          with (match trimEnd (String d last) with
                | EmptyString => EmptyString
                | kept => String " " kept
                end).
        rewrite Hlend. done.
  - intros last Hfirst Hlast Hne Hstart Hend.
    rewrite Hfirst, Hlast. destruct last as [|d last]; [done|].
    simpl truthy. simpl orb. cbn [orString].
    replace (orString (u_firstName user) "") with "".
    2: { destruct (u_firstName user) as [[|]|]; done. }
    unfold trim.
    change (trimStart ("" ++ " " ++ String d last))
      with (trimStart (String d last)).
    by rewrite Hstart, Hend.
  - intros first Hfirst Hne Hblank Hlast.
    rewrite Hfirst. destruct first as [|c first]; [done|]. simpl truthy.
    simpl orb. cbn [orString].
    replace (orString (u_lastName user) "") with "".
    2: { destruct (u_lastName user) as [[|]|]; done. }
    unfold trim in *.
    rewrite trimStart_blank_append by (by apply trimStart_blank).
    reflexivity.
Qed.

Lemma getDisplayName_names_witness :
  getDisplayName alice = "Alice" /\
  getDisplayName (mkUser "dora" None (Some "Dora") (Some "Doe") None None None)
    = "Dora Doe" /\
  getDisplayName (mkUser "blank" (Some "blank@example.org") (Some " ") None
                         None None None) = "".
Proof.
  split; [|split].
  - destruct (getDisplayName_names alice) as (Hfirst & _ & _).
    destruct (Hfirst "Alice") as [Hone _];
      [reflexivity|discriminate|reflexivity|reflexivity|].
    apply Hone. reflexivity.
  - destruct (getDisplayName_names
                (mkUser "dora" None (Some "Dora") (Some "Doe") None None None))
      as (Hfirst & _ & _).
    destruct (Hfirst "Dora") as [_ Hboth];
      [reflexivity|discriminate|reflexivity|reflexivity|].
    apply (Hboth "Doe"); [reflexivity|discriminate|reflexivity].
  - destruct (getDisplayName_names
                (mkUser "blank" (Some "blank@example.org") (Some " ") None
                        None None None)) as (_ & _ & Hblank).
    apply (Hblank " "); [reflexivity|discriminate|reflexivity|reflexivity].
Defined.
